(** * local-storage-operator: the node-daemon reconciler

    A shallow embedding of [pkg/controller/nodedaemon/reconcile.go]:
    [DaemonReconciler.Reconcile] and [DaemonReconciler.cleanupOldDaemonsets],
    and proofs about the calls they make.

    - The Go code talks to the cluster through the [client.Client]
      interface, so the embedding is parametric in a world type [W] and a
      [Client W] instance.  Code runs in a state monad over the world, the
      receiver [*r] and the one local variable that a closure captures; every
      call through the client (and every call of a helper of the package that
      lives in another file) is recorded as an [Event] with its arguments and
      its answer.
    - Go's [error] values are [option error]; [None] is [nil].
    - [time.Duration] is a number of nanoseconds in [Z]; [float64] factors
      are rationals, so the rounding of [float64] products is not modelled.
      The intervals of the backoff used here stay far below 2^53 ns.
    - [wait.ExponentialBackoff], [Backoff.Step], [wait.Jitter] and
      [labels.NewRequirement] are library code (k8s.io/apimachinery) and are
      modelled after it; the label validators are left abstract.
    - Logger calls have no influence on control flow; they are kept as
      no-ops so that the definitions can be read next to the source.
    - Panics are not modelled. *)

From Stdlib Require Import ZArith QArith String Bool Lia.
From stdpp Require Import base option list gmap strings.

Local Open Scope Z_scope.

(** ** Constants of the package *)

Definition oldProvisionerName : string := "localvolumeset-local-provisioner".
Definition oldLVDiskMakerPrefix : string := "local-volume-diskmaker-".
Definition oldLVProvisionerPrefix : string := "local-volume-provisioner-".
Definition appLabelKey : string := "app".
Definition ProvisionerName : string := "local-provisioner".
Definition DiskMakerName : string := "diskmaker-manager".
Definition dataHashAnnotationKey : string :=
  "local.storage.openshift.io/configMapDataHash".

(** ** Errors: [k8s.io/apimachinery/pkg/api/errors] and [wait.ErrWaitTimeout] *)

Inductive StatusReason :=
| StatusReasonNotFound
| StatusReasonGone
| StatusReasonConflict
| StatusReasonForbidden
| StatusReasonTimeout
| StatusReasonInternalError.

Inductive error :=
| StatusError (reason : StatusReason)
| ErrWaitTimeout
| errorString (msg : string).

#[global] Instance StatusReason_eq_dec : EqDecision StatusReason.
Proof. solve_decision. Defined.
#[global] Instance error_eq_dec : EqDecision error.
Proof. solve_decision. Defined.

(** [err != nil] *)
Definition notNil (err : option error) : bool :=
  match err with Some _ => true | None => false end.

Definition errors_IsNotFound (err : option error) : bool :=
  match err with Some (StatusError StatusReasonNotFound) => true | _ => false end.

Definition errors_IsGone (err : option error) : bool :=
  match err with Some (StatusError StatusReasonGone) => true | _ => false end.

(** [strings.HasPrefix(s, prefix)] *)
Definition strings_HasPrefix (s prefix : string) : bool := String.prefix prefix s.

(** ** Cluster objects.  Payload types whose shape the reconciler never
    inspects are kept opaque. *)

Record OwnerReference := { ownerRef_Name : string }.
Record Toleration := { toleration_Key : string }.
Record NodeSelector := { nodeSelector_Terms : list string }.
Record LocalVolumeSet := { lvset_Name : string }.
Record LocalVolume := { lv_Name : string }.

Record ObjectMeta := {
  Name : string;
  Namespace : string;
  Labels : gmap string string;
  Annotations : gmap string string;
  OwnerReferences : list OwnerReference;
}.

Record DaemonSet := {
  ds_ObjectMeta : ObjectMeta;
  ds_Tolerations : list Toleration;
  ds_NodeSelector : option NodeSelector;
}.

Record Pod := { pod_ObjectMeta : ObjectMeta }.

Record ConfigMap := {
  cm_ObjectMeta : ObjectMeta;
  Data : gmap string string;
}.

Record NamespacedName := { nn_Namespace : string; nn_Name : string }.

#[global] Instance OwnerReference_eq_dec : EqDecision OwnerReference.
Proof. solve_decision. Defined.
#[global] Instance Toleration_eq_dec : EqDecision Toleration.
Proof. solve_decision. Defined.
#[global] Instance NodeSelector_eq_dec : EqDecision NodeSelector.
Proof. solve_decision. Defined.
#[global] Instance ObjectMeta_eq_dec : EqDecision ObjectMeta.
Proof. solve_decision. Defined.
#[global] Instance DaemonSet_eq_dec : EqDecision DaemonSet.
Proof. solve_decision. Defined.

Definition emptyObjectMeta : ObjectMeta :=
  {| Name := ""; Namespace := ""; Labels := ∅; Annotations := ∅;
     OwnerReferences := [] |}.

(** [&appsv1.DaemonSet{}] *)
Definition emptyDaemonSet : DaemonSet :=
  {| ds_ObjectMeta := emptyObjectMeta; ds_Tolerations := [];
     ds_NodeSelector := None |}.

Definition emptyConfigMap : ConfigMap :=
  {| cm_ObjectMeta := emptyObjectMeta; Data := ∅ |}.

(** ** Label selectors: [k8s.io/apimachinery/pkg/labels] and [selection] *)

Inductive Operator :=
| selection_In
| selection_NotIn
| selection_Exists
| selection_DoesNotExist.

Record Requirement := {
  req_key : string;
  req_operator : Operator;
  req_strValues : list string;
}.

Definition Selector := list Requirement.

Definition labels_NewSelector : Selector := [].
Definition Selector_Add (sel : Selector) (req : Requirement) : Selector :=
  sel ++ [req].

Definition Requirement_hasValue (req : Requirement) (v : string) : bool :=
  bool_decide (v ∈ req_strValues req).

Definition Requirement_Matches (req : Requirement) (ls : gmap string string) : bool :=
  match req_operator req with
  | selection_In =>
      match ls !! req_key req with
      | None => false
      | Some v => Requirement_hasValue req v
      end
  | selection_NotIn =>
      match ls !! req_key req with
      | None => true
      | Some v => negb (Requirement_hasValue req v)
      end
  | selection_Exists => bool_decide (is_Some (ls !! req_key req))
  | selection_DoesNotExist => negb (bool_decide (is_Some (ls !! req_key req)))
  end.

Definition Selector_Matches (sel : Selector) (ls : gmap string string) : bool :=
  forallb (fun req => Requirement_Matches req ls) sel.

(** ** [reconcile.Request], [reconcile.Result], [controllerutil.OperationResult] *)

Record Request := { req_Namespace : string; req_Name : string }.

Record Result := { Requeue : bool; RequeueAfter : Z }.

Definition emptyResult : Result := {| Requeue := false; RequeueAfter := 0 |}.

Inductive OperationResult :=
| OperationResultNone
| OperationResultCreated
| OperationResultUpdated.

(** What [aggregateDeamonInfo] hands back besides its error. *)
Record DaemonInfo := {
  lvSets_Items : list LocalVolumeSet;
  lvs_Items : list LocalVolume;
  tolerations : list Toleration;
  ownerRefs : list OwnerReference;
  nodeSelector : option NodeSelector;
}.

(** ** [wait.Backoff]; [time.Duration] is a count of nanoseconds, [float64]
    factors are rationals. *)

Definition time_Second : Z := 1000000000.
Definition time_Minute : Z := 60 * time_Second.

Record Backoff := {
  Duration : Z;
  Factor : Q;
  Jitter : Q;
  Steps : Z;
  Cap : Z;
}.

(** ** The observable behaviour of one run: the calls made, with answers *)

Inductive Event :=
| EvListDaemonSets (namespace : string) (items : list DaemonSet) (err : option error)
| EvListPods (selector : Selector) (items : list Pod) (err : option error)
| EvGet (key : NamespacedName) (obj : DaemonSet) (err : option error)
| EvDelete (obj : DaemonSet) (err : option error)
| EvCreate (obj : DaemonSet) (err : option error)
| EvUpdate (obj : DaemonSet) (err : option error)
| EvNewRequirement (key : string) (op : Operator) (vals : list string)
    (err : option error)
| EvSleep (d : Z)
| EvAggregateDeamonInfo (request : Request) (info : DaemonInfo) (err : option error)
| EvReconcileProvisionerConfigMap (request : Request) (configMap : ConfigMap)
    (opResult : OperationResult) (err : option error).

(** ** The interfaces the reconciler is written against *)

(** [client.Client], restricted to the calls of this package.  A call with
    an out-parameter returns what the out-parameter holds afterwards.
    Daemonsets are listed with [client.InNamespace], pods with a label
    selector only. *)
Class Client (W : Type) := {
  client_List_DaemonSets : string -> W -> list DaemonSet * option error * W;
  client_List_Pods : Selector -> W -> list Pod * option error * W;
  client_Get : NamespacedName -> W -> DaemonSet * option error * W;
  client_Delete : DaemonSet -> W -> option error * W;
  client_Create : DaemonSet -> W -> option error * W;
  client_Update : DaemonSet -> W -> option error * W;
}.

(** The rest of the environment: the clock and the random source used by
    [wait.ExponentialBackoff], the label validators behind
    [labels.NewRequirement], and the functions of this package that are
    defined in other files than [reconcile.go]. *)
Class Deps (W : Type) := {
  time_Sleep : Z -> W -> W;
  rand_Float64 : W -> Q * W;
  validateLabelKey : string -> option error;
  validateLabelValue : string -> string -> option error;
  aggregateDeamonInfo : Request -> W -> DaemonInfo * option error * W;
  reconcileProvisionerConfigMap :
    Request -> list LocalVolumeSet -> list LocalVolume -> list OwnerReference ->
    W -> ConfigMap * OperationResult * option error * W;
  dataHash : gmap string string -> string;
}.

(** ** The reconciler and its state *)

Record DaemonReconciler := {
  reqLogger : list string;
  deletedStaticProvisioner : bool;
}.

(** [world] is the cluster behind the client, [rcv] the receiver [*r], and
    [appNameList] the local slice of [cleanupOldDaemonsets] that its polling
    closure captures by reference. *)
Record State (W : Type) := mkState {
  world : W;
  rcv : DaemonReconciler;
  appNameList : list string;
}.
Arguments mkState {W}.
Arguments world {W}.
Arguments rcv {W}.
Arguments appNameList {W}.

Definition M (W A : Type) : Type := State W -> A * State W * list Event.

Definition ret {W A} (a : A) : M W A := fun s => (a, s, []).

Definition bind {W A B} (m : M W A) (k : A -> M W B) : M W B :=
  fun s =>
    let '(a, s1, evs1) := m s in
    let '(b, s2, evs2) := k a s1 in
    (b, s2, evs1 ++ evs2).

#[global] Instance M_ret {W} : MRet (M W) := @ret W.
#[global] Instance M_bind {W} : MBind (M W) := fun A B k m => bind m k.

Definition result {W A} (x : A * State W * list Event) : A := fst (fst x).
Definition final {W A} (x : A * State W * list Event) : State W := snd (fst x).
Definition events {W A} (x : A * State W * list Event) : list Event := snd x.

Definition latch {W} (s : State W) : bool := deletedStaticProvisioner (rcv s).

(** ** The embedding of [reconcile.go] *)

Section Model.
Context {W : Type} `{!Client W} `{!Deps W}.

(** *** State access *)

Definition setWorld (w : W) (s : State W) : State W :=
  mkState w (rcv s) (appNameList s).

Definition getReceiver : M W DaemonReconciler := fun s => (rcv s, s, []).

(** [r.reqLogger = l] *)
Definition setReqLogger (l : list string) : M W unit :=
  fun s =>
    (tt,
     mkState (world s)
       {| reqLogger := l;
          deletedStaticProvisioner := deletedStaticProvisioner (rcv s) |}
       (appNameList s),
     []).

(** [r.deletedStaticProvisioner = b] *)
Definition setDeletedStaticProvisioner (b : bool) : M W unit :=
  fun s =>
    (tt,
     mkState (world s)
       {| reqLogger := reqLogger (rcv s); deletedStaticProvisioner := b |}
       (appNameList s),
     []).

Definition getAppNameList : M W (list string) := fun s => (appNameList s, s, []).

(** [appNameList = l] *)
Definition setAppNameList (l : list string) : M W unit :=
  fun s => (tt, mkState (world s) (rcv s) l, []).

(** [r.reqLogger.Info(...)] and [r.reqLogger.Error(...)] *)
Definition logInfo (msg : string) : M W unit := ret tt.
Definition logError (err : option error) (msg : string) : M W unit := ret tt.

(** *** Calls through [r.client], each leaving its event *)

Definition List_DaemonSets (namespace : string)
  : M W (list DaemonSet * option error) :=
  fun s =>
    let '(items, err, w) := client_List_DaemonSets namespace (world s) in
    ((items, err), setWorld w s, [EvListDaemonSets namespace items err]).

Definition List_Pods (selector : Selector) : M W (list Pod * option error) :=
  fun s =>
    let '(items, err, w) := client_List_Pods selector (world s) in
    ((items, err), setWorld w s, [EvListPods selector items err]).

Definition Get (key : NamespacedName) : M W (DaemonSet * option error) :=
  fun s =>
    let '(obj, err, w) := client_Get key (world s) in
    ((obj, err), setWorld w s, [EvGet key obj err]).

Definition Delete (obj : DaemonSet) : M W (option error) :=
  fun s =>
    let '(err, w) := client_Delete obj (world s) in
    (err, setWorld w s, [EvDelete obj err]).

Definition Create (obj : DaemonSet) : M W (option error) :=
  fun s =>
    let '(err, w) := client_Create obj (world s) in
    (err, setWorld w s, [EvCreate obj err]).

Definition Update (obj : DaemonSet) : M W (option error) :=
  fun s =>
    let '(err, w) := client_Update obj (world s) in
    (err, setWorld w s, [EvUpdate obj err]).

(** *** [time.Sleep] and [rand.Float64] *)

Definition Sleep (d : Z) : M W unit :=
  fun s => (tt, setWorld (time_Sleep d (world s)) s, [EvSleep d]).

Definition Float64 : M W Q :=
  fun s => let '(x, w) := rand_Float64 (world s) in (x, setWorld w s, []).

(** *** [labels.NewRequirement] *)

Fixpoint validateLabelValues (key : string) (vals : list string) : option error :=
  match vals with
  | [] => None
  | v :: vals =>
      match validateLabelValue key v with
      | Some err => Some err
      | None => validateLabelValues key vals
      end
  end.

Definition labels_NewRequirement (key : string) (op : Operator) (vals : list string)
  : Requirement + error :=
  match validateLabelKey key with
  | Some err => inr err
  | None =>
      let arity :=
        match op with
        | selection_In | selection_NotIn =>
            if (length vals =? 0)%nat
            then Some (errorString "for 'in', 'notin' operators, values set can't be empty")
            else None
        | selection_Exists | selection_DoesNotExist =>
            if negb (length vals =? 0)%nat
            then Some (errorString "values set must be empty for exists and does not exist")
            else None
        end in
      match arity with
      | Some err => inr err
      | None =>
          match validateLabelValues key vals with
          | Some err => inr err
          | None =>
              inl {| req_key := key; req_operator := op; req_strValues := vals |}
          end
      end
  end.

Definition NewRequirement (key : string) (op : Operator) (vals : list string)
  : M W (Requirement + error) :=
  fun s =>
    let res := labels_NewRequirement key op vals in
    (res, s,
     [EvNewRequirement key op vals
        match res with inl _ => None | inr err => Some err end]).

(** *** [wait.Jitter], [Backoff.Step] and [wait.ExponentialBackoff] *)

(** Conversion of a non-negative [float64] to [time.Duration] truncates. *)
Definition float64_to_Duration (x : Q) : Z := Z.quot (Qnum x) (Zpos (Qden x)).

Definition wait_Jitter (duration : Z) (maxFactor : Q) : M W Z :=
  let maxFactor := if Qle_bool maxFactor 0 then 1%Q else maxFactor in
  x ← Float64;
  ret (duration + float64_to_Duration (x * maxFactor * inject_Z duration)).

Definition setSteps (n : Z) (b : Backoff) : Backoff :=
  {| Duration := Duration b; Factor := Factor b; Jitter := Jitter b;
     Steps := n; Cap := Cap b |}.

Definition setDuration (d : Z) (b : Backoff) : Backoff :=
  {| Duration := d; Factor := Factor b; Jitter := Jitter b;
     Steps := Steps b; Cap := Cap b |}.

(** [b.Step()]: the interval to sleep, and [b] as the call leaves it. *)
Definition Backoff_Step (b : Backoff) : M W (Z * Backoff) :=
  if Steps b <? 1 then
    if negb (Qle_bool (Jitter b) 0) then
      d ← wait_Jitter (Duration b) (Jitter b); ret (d, b)
    else ret (Duration b, b)
  else
    let b := setSteps (Steps b - 1) b in
    let duration := Duration b in
    let b :=
      if negb (Qeq_bool (Factor b) 0) then
        let b :=
          setDuration (float64_to_Duration (inject_Z (Duration b) * Factor b)) b in
        if (0 <? Cap b) && (Cap b <? Duration b)
        then setSteps 0 (setDuration (Cap b) b)
        else b
      else b in
    if negb (Qle_bool (Jitter b) 0) then
      d ← wait_Jitter duration (Jitter b); ret (d, b)
    else ret (duration, b).

(** The loop [for backoff.Steps > 0 { ... }].  Every turn that goes on
    lowers [Steps], so [Steps] turns are enough (see
    [wait_ExponentialBackoff_unfold]). *)
Fixpoint backoffLoop (fuel : nat) (backoff : Backoff)
    (condition : M W (bool * option error)) : M W (option error) :=
  match fuel with
  | O => ret (Some ErrWaitTimeout)
  | S fuel =>
      if 0 <? Steps backoff then
        '(ok, err) ← condition;
        if notNil err || ok then ret err
        else if Steps backoff =? 1 then ret (Some ErrWaitTimeout)
        else
          '(d, backoff) ← Backoff_Step backoff;
          Sleep d ;;
          backoffLoop fuel backoff condition
      else ret (Some ErrWaitTimeout)
  end.

Definition wait_ExponentialBackoff (backoff : Backoff)
    (condition : M W (bool * option error)) : M W (option error) :=
  backoffLoop (Z.to_nat (Steps backoff)) backoff condition.

(** One turn of that loop, with the rest of the loop as [again]. *)
Definition backoffTurn (again : Backoff -> M W (option error)) (backoff : Backoff)
    (condition : M W (bool * option error)) : M W (option error) :=
  if 0 <? Steps backoff then
    '(ok, err) ← condition;
    if notNil err || ok then ret err
    else if Steps backoff =? 1 then ret (Some ErrWaitTimeout)
    else
      '(d, backoff) ← Backoff_Step backoff;
      Sleep d;;
      again backoff
  else ret (Some ErrWaitTimeout).

(** *** [cleanupOldDaemonsets] *)

Definition hasOldPrefix (appLabel : string) : bool :=
  strings_HasPrefix appLabel oldLVDiskMakerPrefix
  || strings_HasPrefix appLabel oldLVProvisionerPrefix.

(** [err != nil && !(errors.IsNotFound(err) || errors.IsGone(err))] *)
Definition fatalDeleteError (err : option error) : bool :=
  notNil err && negb (errors_IsNotFound err || errors_IsGone err).

(** The loop [for _, ds := range dsList.Items].  [Some err] is the
    [return err] inside the loop, [None] is falling out of it. *)
Fixpoint deleteOldLocalVolumeDaemons (items : list DaemonSet) : M W (option error) :=
  match items with
  | [] => ret None
  | ds :: items =>
      match Labels (ds_ObjectMeta ds) !! appLabelKey with
      | None => deleteOldLocalVolumeDaemons items
      | Some appLabel =>
          if hasOldPrefix appLabel then
            l ← getAppNameList;
            setAppNameList (l ++ [appLabel]) ;;
            err ← Delete ds;
            if fatalDeleteError err then
              logError err "could not delete daemonset" ;;
              ret err
            else deleteOldLocalVolumeDaemons items
          else deleteOldLocalVolumeDaemons items
      end
  end.

(** Lines 126-138: fetch the daemonset called [oldProvisionerName] and
    delete it.  [Some err] is a [return err], [None] goes on. *)
Definition deleteOldProvisioner (namespace : string) : M W (option error) :=
  '(provisioner, err) ←
    Get {| nn_Name := oldProvisionerName; nn_Namespace := namespace |};
  if negb (notNil err) then
    logInfo "old daemonset found, cleaning up" ;;
    err ← Delete provisioner;
    if fatalDeleteError err then
      logError err "could not delete daemonset" ;;
      ret err
    else ret None
  else if negb (errors_IsNotFound err || errors_IsGone err) then
    logError err "could not fetch daemonset to clean it up" ;;
    ret err
  else ret None.

(** The [wait.Backoff] literal of line 141. *)
Definition cleanupBackoff : Backoff :=
  {| Cap := time_Minute * 2;
     Duration := time_Second;
     Factor := 1.7%Q;
     Jitter := 1%Q;
     Steps := 20 |}.

(** The closure of lines 147-166. *)
Definition podsGone : M W (bool * option error) :=
  let allGone := false in
  l ← getAppNameList;
  setAppNameList (l ++ [oldProvisionerName]) ;;
  l ← getAppNameList;
  requirement ← NewRequirement appLabelKey selection_In l;
  match requirement with
  | inr err =>
      logError (Some err) "failed to compose labelselector requirement" ;;
      ret (false, Some err)
  | inl requirement =>
      let selector := Selector_Add labels_NewSelector requirement in
      '(podList, err) ← List_Pods selector;
      if notNil err && negb (errors_IsNotFound err) then ret (false, err)
      else
        let allGone := if (length podList =? 0)%nat then true else allGone in
        logInfo "waiting for 0 pods with label app" ;;
        ret (allGone, None)
  end.

Definition cleanupOldDaemonsets (namespace : string) : M W (option error) :=
  r ← getReceiver;
  if deletedStaticProvisioner r then ret None
  else
    '(dsList, err) ← List_DaemonSets namespace;
    if notNil err then
      logError err "could not list daemonsets" ;;
      ret err
    else
      setAppNameList [] ;;
      err ← deleteOldLocalVolumeDaemons dsList;
      if notNil err then ret err
      else
        err ← deleteOldProvisioner namespace;
        if notNil err then ret err
        else
          err ← wait_ExponentialBackoff cleanupBackoff podsGone;
          if notNil err then
            logError err "could not determine that old provisioner pods were deleted" ;;
            ret err
          else
            setDeletedStaticProvisioner true ;;
            ret None.

(** *** The helpers of [Reconcile] that live in other files *)

Definition callAggregateDeamonInfo (request : Request)
  : M W (DaemonInfo * option error) :=
  fun s =>
    let '(info, err, w) := aggregateDeamonInfo request (world s) in
    ((info, err), setWorld w s, [EvAggregateDeamonInfo request info err]).

Definition callReconcileProvisionerConfigMap (request : Request)
    (lvSets : list LocalVolumeSet) (lvs : list LocalVolume)
    (ownerRefs : list OwnerReference)
  : M W (ConfigMap * OperationResult * option error) :=
  fun s =>
    let '(configMap, opResult, err, w) :=
      reconcileProvisionerConfigMap request lvSets lvs ownerRefs (world s) in
    ((configMap, opResult, err), setWorld w s,
     [EvReconcileProvisionerConfigMap request configMap opResult err]).

(** Modelled from the spec: [getDiskMakerDSMutateFn] is defined outside
    [reconcile.go].  Section 4.4 step 5: a mutation function that sets
    tolerations, owner references, node selector, and the fingerprint
    annotation; section 3: the daemonset is identified by a fixed name. *)
Definition getDiskMakerDSMutateFn (request : Request)
    (tolerations : list Toleration) (ownerRefs : list OwnerReference)
    (nodeSelector : option NodeSelector) (hash : string)
  : DaemonSet -> DaemonSet :=
  fun ds =>
    {| ds_ObjectMeta :=
         {| Name := DiskMakerName;
            Namespace := req_Namespace request;
            Labels := Labels (ds_ObjectMeta ds);
            Annotations :=
              <[dataHashAnnotationKey := hash]> (Annotations (ds_ObjectMeta ds));
            OwnerReferences := ownerRefs |};
       ds_Tolerations := tolerations;
       ds_NodeSelector := nodeSelector |}.

(** Modelled from the spec: [CreateOrUpdateDaemonset] is defined outside
    [reconcile.go].  Section 4.2: fetch by identity; if not-found,
    construct an empty object; apply the mutation; compare with the
    pre-mutation snapshot; if changed, write (create if it was absent,
    else update); fetch errors other than not-found and write errors
    propagate.  The Go signature takes no identity, so the identity is the
    one the mutation function gives to an empty object. *)
Definition CreateOrUpdateDaemonset (mutateFn : DaemonSet -> DaemonSet)
  : M W (DaemonSet * OperationResult * option error) :=
  let identity := ds_ObjectMeta (mutateFn emptyDaemonSet) in
  '(found, err) ←
    Get {| nn_Name := Name identity; nn_Namespace := Namespace identity |};
  if notNil err && negb (errors_IsNotFound err) then
    ret (found, OperationResultNone, err)
  else
    let absent := errors_IsNotFound err in
    let snapshot := if absent then emptyDaemonSet else found in
    let ds := mutateFn snapshot in
    if bool_decide (ds = snapshot) then ret (ds, OperationResultNone, None)
    else if absent then
      err ← Create ds;
      if notNil err then ret (ds, OperationResultNone, err)
      else ret (ds, OperationResultCreated, None)
    else
      err ← Update ds;
      if notNil err then ret (ds, OperationResultNone, err)
      else ret (ds, OperationResultUpdated, None).

Definition changed (opResult : OperationResult) : bool :=
  match opResult with
  | OperationResultUpdated | OperationResultCreated => true
  | OperationResultNone => false
  end.

(** *** [Reconcile] *)

Definition Reconcile (request : Request) : M W (Result * option error) :=
  setReqLogger
    ["Request.Namespace"; req_Namespace request; "Request.Name"; req_Name request] ;;
  err ← cleanupOldDaemonsets (req_Namespace request);
  if notNil err then ret (emptyResult, err)
  else
    '(info, err) ← callAggregateDeamonInfo request;
    if notNil err then ret (emptyResult, err)
    else if (length (lvSets_Items info) <? 1)%nat && (length (lvs_Items info) <? 1)%nat
    then ret (emptyResult, None)
    else
      '(configMap, opResult, err) ←
        callReconcileProvisionerConfigMap request (lvSets_Items info)
          (lvs_Items info) (ownerRefs info);
      if notNil err then ret (emptyResult, err)
      else
        (if changed opResult then logInfo "provisioner configmap changed"
         else ret tt) ;;
        let configMapDataHash := dataHash (Data configMap) in
        let diskMakerDSMutateFn :=
          getDiskMakerDSMutateFn request (tolerations info) (ownerRefs info)
            (nodeSelector info) configMapDataHash in
        '(ds, opResult, err) ← CreateOrUpdateDaemonset diskMakerDSMutateFn;
        if notNil err then ret (emptyResult, err)
        else
          (if changed opResult then logInfo "daemonset changed" else ret tt) ;;
          ret (emptyResult, err).

End Model.

(** ** An in-memory cluster, in the manner of controller-runtime's fake
    client, on which the reconciler can be run.  Errors can be injected
    into pod listing, deletion and fetching. *)

Module Fake.

Record Cluster := {
  daemonsets : list DaemonSet;
  pods : list Pod;
  lvsets : list LocalVolumeSet;
  localvolumes : list LocalVolume;
  configMap : option ConfigMap;
  (** pods of deleted daemonsets go away while the reconciler sleeps *)
  drains : bool;
  listPodsError : option error;
  deleteError : option error;
  getError : option error;
}.

Definition setDaemonsets (l : list DaemonSet) (c : Cluster) : Cluster :=
  {| daemonsets := l; pods := pods c; lvsets := lvsets c;
     localvolumes := localvolumes c; configMap := configMap c;
     drains := drains c; listPodsError := listPodsError c;
     deleteError := deleteError c; getError := getError c |}.

Definition setPods (l : list Pod) (c : Cluster) : Cluster :=
  {| daemonsets := daemonsets c; pods := l; lvsets := lvsets c;
     localvolumes := localvolumes c; configMap := configMap c;
     drains := drains c; listPodsError := listPodsError c;
     deleteError := deleteError c; getError := getError c |}.

Definition setConfigMap (cm : ConfigMap) (c : Cluster) : Cluster :=
  {| daemonsets := daemonsets c; pods := pods c; lvsets := lvsets c;
     localvolumes := localvolumes c; configMap := Some cm;
     drains := drains c; listPodsError := listPodsError c;
     deleteError := deleteError c; getError := getError c |}.

Definition sameObject (a b : ObjectMeta) : bool :=
  bool_decide (Name a = Name b) && bool_decide (Namespace a = Namespace b).

Definition hasKey (key : NamespacedName) (ds : DaemonSet) : bool :=
  bool_decide (Name (ds_ObjectMeta ds) = nn_Name key)
  && bool_decide (Namespace (ds_ObjectMeta ds) = nn_Namespace key).

Definition exists_ds (ds : DaemonSet) (c : Cluster) : bool :=
  existsb (fun d => sameObject (ds_ObjectMeta d) (ds_ObjectMeta ds)) (daemonsets c).

Definition without (ds : DaemonSet) (l : list DaemonSet) : list DaemonSet :=
  List.filter (fun d => negb (sameObject (ds_ObjectMeta d) (ds_ObjectMeta ds))) l.

(** A pod lives on while one of its owners is still a daemonset of its
    namespace; pods without owner are never reaped. *)
Definition owned (c : Cluster) (p : Pod) : bool :=
  match OwnerReferences (pod_ObjectMeta p) with
  | [] => true
  | owners =>
      existsb
        (fun o =>
           existsb
             (fun d =>
                bool_decide (Name (ds_ObjectMeta d) = ownerRef_Name o)
                && bool_decide
                     (Namespace (ds_ObjectMeta d) = Namespace (pod_ObjectMeta p)))
             (daemonsets c))
        owners
  end.

Definition fingerprint (data : gmap string string) : string :=
  String.concat ";" (List.map (fun kv => fst kv +:+ "=" +:+ snd kv) (map_to_list data)).

Definition desiredConfigMap (request : Request) (lvSets : list LocalVolumeSet)
    (lvs : list LocalVolume) (owners : list OwnerReference) : ConfigMap :=
  {| cm_ObjectMeta :=
       {| Name := ProvisionerName; Namespace := req_Namespace request;
          Labels := ∅; Annotations := ∅; OwnerReferences := owners |};
     Data :=
       {[ "storageClassMap" :=
            String.concat ","
              (List.map lvset_Name lvSets ++ List.map lv_Name lvs) ]} |}.

#[global] Instance client : Client Cluster := {|
  client_List_DaemonSets namespace c :=
    (List.filter
       (fun d => bool_decide (Namespace (ds_ObjectMeta d) = namespace))
       (daemonsets c),
     None, c);
  client_List_Pods selector c :=
    match listPodsError c with
    | Some err => ([], Some err, c)
    | None =>
        (List.filter
           (fun p => Selector_Matches selector (Labels (pod_ObjectMeta p)))
           (pods c),
         None, c)
    end;
  client_Get key c :=
    match getError c with
    | Some err => (emptyDaemonSet, Some err, c)
    | None =>
        match List.find (hasKey key) (daemonsets c) with
        | Some ds => (ds, None, c)
        | None => (emptyDaemonSet, Some (StatusError StatusReasonNotFound), c)
        end
    end;
  client_Delete ds c :=
    match deleteError c with
    | Some err => (Some err, c)
    | None =>
        if exists_ds ds c
        then (None, setDaemonsets (without ds (daemonsets c)) c)
        else (Some (StatusError StatusReasonNotFound), c)
    end;
  client_Create ds c :=
    if exists_ds ds c then (Some (StatusError StatusReasonConflict), c)
    else (None, setDaemonsets (daemonsets c ++ [ds]) c);
  client_Update ds c :=
    if exists_ds ds c
    then (None, setDaemonsets (without ds (daemonsets c) ++ [ds]) c)
    else (Some (StatusError StatusReasonNotFound), c);
|}.

#[global] Instance deps : Deps Cluster := {|
  time_Sleep d c :=
    if drains c then setPods (List.filter (owned c) (pods c)) c else c;
  rand_Float64 c := ((1 # 2)%Q, c);
  validateLabelKey key :=
    if bool_decide (key = "") then Some (errorString "name part must be non-empty")
    else None;
  validateLabelValue key v :=
    if (63 <? String.length v)%nat
    then Some (errorString "must be no more than 63 characters")
    else None;
  aggregateDeamonInfo request c :=
    ({| lvSets_Items := lvsets c;
        lvs_Items := localvolumes c;
        tolerations := [];
        ownerRefs :=
          List.map (fun x => {| ownerRef_Name := lvset_Name x |}) (lvsets c);
        nodeSelector := None |},
     None, c);
  reconcileProvisionerConfigMap request lvSets lvs owners c :=
    let cm := desiredConfigMap request lvSets lvs owners in
    match configMap c with
    | None => (cm, OperationResultCreated, None, setConfigMap cm c)
    | Some old =>
        if bool_decide (Data old = Data cm)
        then (cm, OperationResultNone, None, c)
        else (cm, OperationResultUpdated, None, setConfigMap cm c)
    end;
  dataHash := fingerprint;
|}.

Definition meta (namespace name : string) (labels : list (string * string))
    (owners : list string) : ObjectMeta :=
  {| Name := name; Namespace := namespace; Labels := list_to_map labels;
     Annotations := ∅;
     OwnerReferences := List.map (fun o => {| ownerRef_Name := o |}) owners |}.

Definition daemonset (namespace name : string) (labels : list (string * string))
  : DaemonSet :=
  {| ds_ObjectMeta := meta namespace name labels []; ds_Tolerations := [];
     ds_NodeSelector := None |}.

Definition pod (namespace name : string) (labels : list (string * string))
    (owner : string) : Pod :=
  {| pod_ObjectMeta := meta namespace name labels [owner] |}.

Definition cluster (dss : list DaemonSet) (ps : list Pod) : Cluster :=
  {| daemonsets := dss; pods := ps; lvsets := []; localvolumes := [];
     configMap := None; drains := true; listPodsError := None;
     deleteError := None; getError := None |}.

Definition withLocalVolumeSets (l : list string) (c : Cluster) : Cluster :=
  {| daemonsets := daemonsets c; pods := pods c;
     lvsets := List.map (fun n => {| lvset_Name := n |}) l;
     localvolumes := localvolumes c; configMap := configMap c;
     drains := drains c; listPodsError := listPodsError c;
     deleteError := deleteError c; getError := getError c |}.

Definition stuck (c : Cluster) : Cluster :=
  {| daemonsets := daemonsets c; pods := pods c; lvsets := lvsets c;
     localvolumes := localvolumes c; configMap := configMap c;
     drains := false; listPodsError := listPodsError c;
     deleteError := deleteError c; getError := getError c |}.

Definition failingListPods (err : error) (c : Cluster) : Cluster :=
  {| daemonsets := daemonsets c; pods := pods c; lvsets := lvsets c;
     localvolumes := localvolumes c; configMap := configMap c;
     drains := drains c; listPodsError := Some err;
     deleteError := deleteError c; getError := getError c |}.

Definition failingDelete (err : error) (c : Cluster) : Cluster :=
  {| daemonsets := daemonsets c; pods := pods c; lvsets := lvsets c;
     localvolumes := localvolumes c; configMap := configMap c;
     drains := drains c; listPodsError := listPodsError c;
     deleteError := Some err; getError := getError c |}.

(** A fresh reconciler ([deletedStaticProvisioner] is the zero value). *)
Definition start (c : Cluster) : State Cluster :=
  mkState c {| reqLogger := []; deletedStaticProvisioner := false |} [].

(** A reconciler that has finished its cleanup. *)
Definition cleaned (c : Cluster) : State Cluster :=
  mkState c {| reqLogger := []; deletedStaticProvisioner := true |} [].

(** A namespace with two legacy local-volume daemonsets, the legacy
    provisioner, the current diskmaker and an unlabelled bystander. *)
Definition legacy : Cluster :=
  cluster
    [ daemonset "ns" "local-volume-diskmaker-fast"
        [("app", "local-volume-diskmaker-fast")];
      daemonset "ns" "bystander" [];
      daemonset "ns" "local-volume-provisioner-fast"
        [("app", "local-volume-provisioner-fast")];
      daemonset "ns" "diskmaker-manager" [("app", "diskmaker-manager")];
      daemonset "ns" oldProvisionerName [("app", oldProvisionerName)] ]
    [ pod "ns" "p1" [("app", "local-volume-diskmaker-fast")]
        "local-volume-diskmaker-fast";
      pod "ns" "p2" [("app", oldProvisionerName)] oldProvisionerName;
      pod "ns" "p3" [("app", "diskmaker-manager")] "diskmaker-manager" ].

Definition request : Request := {| req_Namespace := "ns"; req_Name := "lvset" |}.

(** A namespace whose legacy provisioner daemonset carries another [app]
    label than its own name, and so do its pods. *)
Definition mislabelled : Cluster :=
  cluster
    [ daemonset "ns" oldProvisionerName [("app", "legacy-provisioner")] ]
    [ pod "ns" "p1" [("app", "legacy-provisioner")] oldProvisionerName ].

(** A namespace with nothing of the legacy generation, one fleet
    definition, and the daemonset of the current generation. *)
Definition current : Cluster :=
  withLocalVolumeSets ["fast-disks"]
    (cluster [ daemonset "ns" "bystander" [] ] []).

End Fake.

(** ** What a run of [cleanupOldDaemonsets] looks like from outside

    The traces a cleanup can leave, phase by phase.  They are stated on
    events only; [cleanup_trace] below shows that every run of the
    embedding leaves such a trace. *)

(** The [app] label of a daemonset that the scan loop retires. *)
Definition oldAppLabel (ds : DaemonSet) : option string :=
  match Labels (ds_ObjectMeta ds) !! appLabelKey with
  | Some appLabel => if hasOldPrefix appLabel then Some appLabel else None
  | None => None
  end.

Definition matchesOldPrefix (ds : DaemonSet) : bool :=
  match oldAppLabel ds with Some _ => true | None => false end.

Definition oldAppLabels (items : list DaemonSet) : list string :=
  omap oldAppLabel items.

(** [err != nil && !errors.IsNotFound(err)] *)
Definition fatalListError (err : option error) : bool :=
  notNil err && negb (errors_IsNotFound err).

Definition oldProvisionerKey (namespace : string) : NamespacedName :=
  {| nn_Name := oldProvisionerName; nn_Namespace := namespace |}.

(** The name list handed to [labels.NewRequirement] by attempt number [i]
    (counted from 0) when the scan has collected [base]. *)
Definition retirementNames (base : list string) (i : nat) : list string :=
  base ++ replicate (S i) oldProvisionerName.

Definition retirementRequirement (vals : list string) : Requirement :=
  {| req_key := appLabelKey; req_operator := selection_In; req_strValues := vals |}.

Definition attempt (base : list string) (i : nat) (items : list Pod)
    (err : option error) : list Event :=
  [ EvNewRequirement appLabelKey selection_In (retirementNames base i) None;
    EvListPods [retirementRequirement (retirementNames base i)] items err ].

(** [Backoff.Step] without its random part: the interval before jitter is
    [Duration b], and [b] is left as [Backoff_next b]. *)
Definition Backoff_next (b : Backoff) : Backoff :=
  if Steps b <? 1 then b
  else
    let b := setSteps (Steps b - 1) b in
    if negb (Qeq_bool (Factor b) 0) then
      let b := setDuration (float64_to_Duration (inject_Z (Duration b) * Factor b)) b in
      if (0 <? Cap b) && (Cap b <? Duration b)
      then setSteps 0 (setDuration (Cap b) b)
      else b
    else b.

(** [d] is an interval that [b.Step()] may return: [Duration b], stretched
    by the jitter drawn as [x] when [Jitter b] is positive. *)
Definition jittered (b : Backoff) (x : Q) : Z :=
  if negb (Qle_bool (Jitter b) 0)
  then Duration b + float64_to_Duration (x * Jitter b * inject_Z (Duration b))
  else Duration b.

Inductive ScanTrace : list DaemonSet -> list Event -> option error -> Prop :=
| Scan_end : ScanTrace [] [] None
| Scan_skip ds items evs r :
    matchesOldPrefix ds = false ->
    ScanTrace items evs r ->
    ScanTrace (ds :: items) evs r
| Scan_abort ds items err :
    matchesOldPrefix ds = true ->
    fatalDeleteError err = true ->
    ScanTrace (ds :: items) [EvDelete ds err] err
| Scan_delete ds items err evs r :
    matchesOldPrefix ds = true ->
    fatalDeleteError err = false ->
    ScanTrace items evs r ->
    ScanTrace (ds :: items) (EvDelete ds err :: evs) r.

Inductive ProvisionerTrace (namespace : string) : list Event -> option error -> Prop :=
| Prov_unknown obj err :
    notNil err = true ->
    errors_IsNotFound err || errors_IsGone err = false ->
    ProvisionerTrace namespace [EvGet (oldProvisionerKey namespace) obj err] err
| Prov_absent obj err :
    errors_IsNotFound err || errors_IsGone err = true ->
    ProvisionerTrace namespace [EvGet (oldProvisionerKey namespace) obj err] None
| Prov_abort obj err :
    fatalDeleteError err = true ->
    ProvisionerTrace namespace
      [EvGet (oldProvisionerKey namespace) obj None; EvDelete obj err] err
| Prov_delete obj err :
    fatalDeleteError err = false ->
    ProvisionerTrace namespace
      [EvGet (oldProvisionerKey namespace) obj None; EvDelete obj err] None.

Inductive PollTrace (base : list string)
  : Backoff -> nat -> list Event -> option error -> Prop :=
| Poll_spent b i :
    Steps b <= 0 ->
    PollTrace base b i [] (Some ErrWaitTimeout)
| Poll_badreq b i err :
    0 < Steps b ->
    PollTrace base b i
      [EvNewRequirement appLabelKey selection_In (retirementNames base i) (Some err)]
      (Some err)
| Poll_fatal b i items err :
    0 < Steps b ->
    fatalListError err = true ->
    PollTrace base b i (attempt base i items err) err
| Poll_done b i err :
    0 < Steps b ->
    fatalListError err = false ->
    PollTrace base b i (attempt base i [] err) None
| Poll_last b i items err :
    Steps b = 1 ->
    items <> [] ->
    fatalListError err = false ->
    PollTrace base b i (attempt base i items err) (Some ErrWaitTimeout)
| Poll_again b i items err x rest r :
    1 < Steps b ->
    items <> [] ->
    fatalListError err = false ->
    PollTrace base (Backoff_next b) (S i) rest r ->
    PollTrace base b i (attempt base i items err ++ EvSleep (jittered b x) :: rest) r.

Inductive CleanupTrace (namespace : string) : list Event -> option error -> Prop :=
| Cleanup_nolist items err :
    notNil err = true ->
    CleanupTrace namespace [EvListDaemonSets namespace items err] err
| Cleanup_scan items evs err :
    ScanTrace items evs (Some err) ->
    CleanupTrace namespace (EvListDaemonSets namespace items None :: evs) (Some err)
| Cleanup_provisioner items evs evs' err :
    ScanTrace items evs None ->
    ProvisionerTrace namespace evs' (Some err) ->
    CleanupTrace namespace
      (EvListDaemonSets namespace items None :: evs ++ evs') (Some err)
| Cleanup_poll items evs evs' evs'' r :
    ScanTrace items evs None ->
    ProvisionerTrace namespace evs' None ->
    PollTrace (oldAppLabels items) cleanupBackoff 0 evs'' r ->
    evs'' <> [] ->
    CleanupTrace namespace
      (EvListDaemonSets namespace items None :: evs ++ evs' ++ evs'') r.

(** Projections of a trace. *)

Definition deleted (evs : list Event) : list DaemonSet :=
  omap (fun e => match e with EvDelete obj _ => Some obj | _ => None end) evs.

Definition requirements (evs : list Event) : list (list string) :=
  omap (fun e => match e with EvNewRequirement _ _ vals _ => Some vals | _ => None end)
    evs.

Definition selectors (evs : list Event) : list Selector :=
  omap (fun e => match e with EvListPods sel _ _ => Some sel | _ => None end) evs.

Definition listed (evs : list Event) : list DaemonSet :=
  mjoin (omap (fun e => match e with EvListDaemonSets _ items _ => Some items | _ => None end)
    evs).

Definition fetched (evs : list Event) : list DaemonSet :=
  omap (fun e => match e with EvGet _ obj None => Some obj | _ => None end) evs.

Definition sleeps (evs : list Event) : list Z :=
  omap (fun e => match e with EvSleep d => Some d | _ => None end) evs.

(** A call that writes to the cluster. *)
Definition isWrite (e : Event) : bool :=
  match e with
  | EvDelete _ _ | EvCreate _ _ | EvUpdate _ _
  | EvReconcileProvisionerConfigMap _ _ _ _ => true
  | _ => false
  end.

(** A call that belongs to the steps of [Reconcile] after the cleanup. *)
Definition isLaterStep (e : Event) : bool :=
  match e with
  | EvAggregateDeamonInfo _ _ _
  | EvReconcileProvisionerConfigMap _ _ _ _
  | EvCreate _ _ | EvUpdate _ _ => true
  | EvGet key _ _ => bool_decide (nn_Name key = DiskMakerName)
  | _ => false
  end.

(** A call of one of the two upserts. *)
Definition isUpsert (e : Event) : bool :=
  match e with
  | EvReconcileProvisionerConfigMap _ _ _ _
  | EvCreate _ _ | EvUpdate _ _ => true
  | EvGet key _ _ => bool_decide (nn_Name key = DiskMakerName)
  | _ => false
  end.

(** The operations of the reconciler, and a sequence of them. *)
Inductive Op :=
| OpReconcile (request : Request)
| OpCleanup (namespace : string).

Definition runOp {W} `{!Client W} `{!Deps W} (op : Op) (s : State W) : State W :=
  match op with
  | OpReconcile request => final (Reconcile request s)
  | OpCleanup namespace => final (cleanupOldDaemonsets namespace s)
  end.

Definition runOps {W} `{!Client W} `{!Deps W} (ops : list Op) (s : State W) : State W :=
  fold_left (fun s op => runOp op s) ops s.

(** No delete of the trace was refused for a reason other than the object
    being gone already. *)
Definition noFatalDelete (evs : list Event) : Prop :=
  Forall
    (fun e => match e with EvDelete _ err => fatalDeleteError err = false | _ => True end)
    evs.

Definition isDelete (e : Event) : bool :=
  match e with EvDelete _ _ => true | _ => false end.

(** A requirement that was refused, or a pod listing that failed or came
    back empty: the events that end the polling before its budget does. *)
Definition endsPolling (e : Event) : bool :=
  match e with
  | EvNewRequirement _ _ _ (Some _) => true
  | EvListPods _ items err =>
      fatalListError err || (length items =? 0)%nat
  | _ => false
  end.

(** What the projections see of a cleanup that reached its drain wait. *)
Record Reached (namespace : string) (evs : list Event) (r : option error)
    (items : list DaemonSet) (scan prov poll : list Event) : Prop := {
  reached_events :
    evs = EvListDaemonSets namespace items None :: scan ++ prov ++ poll;
  reached_scan : ScanTrace items scan None;
  reached_prov : ProvisionerTrace namespace prov None;
  reached_poll : PollTrace (oldAppLabels items) cleanupBackoff 0 poll r;
  reached_listed : listed evs = items;
  reached_requirements : requirements evs = requirements poll;
  reached_selectors : selectors evs = selectors poll;
  reached_sleeps : sleeps evs = sleeps poll;
  reached_deleted : deleted evs = List.filter matchesOldPrefix items ++ fetched evs;
}.

#[global] Instance NamespacedName_eq_dec : EqDecision NamespacedName.
Proof. solve_decision. Defined.

(** The calls [cleanupOldDaemonsets] can make in [namespace]. *)
Definition isCleanupEvent (namespace : string) (e : Event) : bool :=
  match e with
  | EvListDaemonSets n _ _ => bool_decide (n = namespace)
  | EvGet key _ _ => bool_decide (key = oldProvisionerKey namespace)
  | EvDelete _ _ | EvListPods _ _ _ | EvNewRequirement _ _ _ _ | EvSleep _ => true
  | _ => false
  end.

(** The calls of the drain wait. *)
Definition isPollEvent (e : Event) : bool :=
  match e with
  | EvListPods _ _ _ | EvNewRequirement _ _ _ _ | EvSleep _ => true
  | _ => false
  end.

(** The state in which [Reconcile] calls [cleanupOldDaemonsets]: the
    request's logger has been stored in the receiver. *)
Definition entered {W} (request : Request) (s : State W) : State W :=
  mkState (world s)
    {| reqLogger :=
         ["Request.Namespace"; req_Namespace request;
          "Request.Name"; req_Name request];
       deletedStaticProvisioner := deletedStaticProvisioner (rcv s) |}
    (appNameList s).

(** The traces [CreateOrUpdateDaemonset] can leave for a mutation function
    and the key it gives: the events, the object handed back and the error. *)
Inductive UpsertTrace (mutateFn : DaemonSet -> DaemonSet) (key : NamespacedName)
  : list Event -> DaemonSet -> option error -> Prop :=
| Upsert_nofetch found err :
    fatalListError err = true ->
    UpsertTrace mutateFn key [EvGet key found err] found err
| Upsert_unchanged found err :
    fatalListError err = false ->
    let snapshot := if errors_IsNotFound err then emptyDaemonSet else found in
    mutateFn snapshot = snapshot ->
    UpsertTrace mutateFn key [EvGet key found err] snapshot None
| Upsert_create found err werr :
    errors_IsNotFound err = true ->
    UpsertTrace mutateFn key
      [EvGet key found err; EvCreate (mutateFn emptyDaemonSet) werr]
      (mutateFn emptyDaemonSet) werr
| Upsert_update found err werr :
    fatalListError err = false ->
    errors_IsNotFound err = false ->
    UpsertTrace mutateFn key
      [EvGet key found err; EvUpdate (mutateFn found) werr]
      (mutateFn found) werr.

(** * Adequacy: the embedding leaves the traces described above *)

Section Adequacy.
Context {W : Type} `{!Client W} `{!Deps W}.
Implicit Types (s : State W) (b : Backoff).

Lemma bind_run {A B} (m : M W A) (k : A -> M W B) s :
  (m ≫= k) s =
  let '(a, s1, evs1) := m s in
  let '(b, s2, evs2) := k a s1 in
  (b, s2, evs1 ++ evs2).
Proof. reflexivity. Qed.

Lemma setWorld_same s : setWorld (world s) s = s.
Proof. by destruct s. Qed.

(** [Backoff.Step] draws at most one random number, returns a jittered
    [Duration b] and leaves [Backoff_next b]. *)
Lemma Backoff_Step_run b s :
  exists x w,
    Backoff_Step b s = ((jittered b x, Backoff_next b), setWorld w s, []).
Proof.
  unfold Backoff_Step, Backoff_next, jittered, wait_Jitter, Float64.
  destruct (Steps b <? 1) eqn:Hsteps; cbn [setSteps setDuration Jitter Duration Factor Cap Steps].
  - destruct (Qle_bool (Jitter b) 0) eqn:Hj; cbn [negb].
    + exists 0%Q, (world s). by rewrite setWorld_same.
    + rewrite bind_run, bind_run.
      destruct (rand_Float64 (world s)) as [x w].
      exists x, w. reflexivity.
  - destruct (Qeq_bool (Factor b) 0) eqn:Hf; cbn [negb];
      [| destruct (_ && _) eqn:Hcap];
      cbn [setSteps setDuration Jitter Duration Factor Cap Steps];
      (destruct (Qle_bool (Jitter b) 0) eqn:Hj; cbn [negb];
       [ exists 0%Q, (world s); by rewrite setWorld_same
       | rewrite bind_run, bind_run;
         destruct (rand_Float64 (world s)) as [x w];
         exists x, w; reflexivity ]).
Qed.

Lemma Backoff_next_Steps b :
  0 < Steps b ->
  Steps (Backoff_next b) = Steps b - 1 \/ Steps (Backoff_next b) = 0.
Proof.
  intros Hpos. unfold Backoff_next.
  destruct (Steps b <? 1) eqn:Hsteps; [lia |].
  destruct (negb _); [destruct (_ && _) |]; cbn; auto.
Qed.

Lemma Backoff_next_fuel b fuel :
  0 < Steps b ->
  (Z.to_nat (Steps b) <= S fuel)%nat ->
  (Z.to_nat (Steps (Backoff_next b)) <= fuel)%nat.
Proof.
  intros Hpos Hfuel. destruct (Backoff_next_Steps b Hpos) as [-> | ->]; lia.
Qed.

(** More fuel than [Steps] changes nothing. *)
Lemma backoffLoop_fuel fuel fuel' b condition s :
  (Z.to_nat (Steps b) <= fuel)%nat ->
  (Z.to_nat (Steps b) <= fuel')%nat ->
  backoffLoop fuel b condition s = backoffLoop fuel' b condition s.
Proof.
  revert fuel' b s. induction fuel as [| fuel IH]; intros fuel' b s Hf Hf'.
  - destruct fuel' as [| fuel']; [done |]. cbn [backoffLoop].
    destruct (0 <? Steps b) eqn:Hpos; [lia | done].
  - destruct fuel' as [| fuel'].
    + cbn [backoffLoop]. destruct (0 <? Steps b) eqn:Hpos; [lia | done].
    + cbn [backoffLoop].
      destruct (0 <? Steps b) eqn:Hpos; [| done].
      rewrite !bind_run. destruct (condition s) as [[[ok err] s1] evs1].
      destruct (notNil err || ok); [done |].
      destruct (Steps b =? 1); [done |].
      rewrite !bind_run.
      destruct (Backoff_Step_run b s1) as (x & w & ->).
      rewrite !bind_run. cbn [Sleep].
      rewrite (IH fuel'); [done | |]; apply Backoff_next_fuel; lia.
Qed.

(** The embedding of [wait.ExponentialBackoff] satisfies the equation of
    the Go loop: it is one turn followed by the loop itself. *)
Lemma wait_ExponentialBackoff_unfold b condition s :
  wait_ExponentialBackoff b condition s =
  backoffTurn (fun b' => wait_ExponentialBackoff b' condition) b condition s.
Proof.
  unfold wait_ExponentialBackoff, backoffTurn.
  destruct (Z.to_nat (Steps b)) as [| fuel] eqn:Hfuel.
  - cbn [backoffLoop]. destruct (0 <? Steps b) eqn:Hpos; [lia | done].
  - cbn [backoffLoop]. destruct (0 <? Steps b) eqn:Hpos; [| done].
    rewrite !bind_run. destruct (condition s) as [[[ok err] s1] evs1].
    destruct (notNil err || ok); [done |].
    destruct (Steps b =? 1); [done |].
    rewrite !bind_run.
    destruct (Backoff_Step_run b s1) as (x & w & ->).
    rewrite !bind_run. cbn [Sleep].
    rewrite (backoffLoop_fuel fuel (Z.to_nat (Steps (Backoff_next b)))); [done | | done].
    apply Backoff_next_fuel; lia.
Qed.

Ltac run_M :=
  unfold mbind, M_bind, bind, ret, getReceiver, getAppNameList, setAppNameList,
    setReqLogger, setDeletedStaticProvisioner, logInfo, logError,
    NewRequirement, List_Pods, List_DaemonSets, Get, Delete, Create, Update,
    Sleep, callAggregateDeamonInfo, callReconcileProvisionerConfigMap in *;
  cbn.

Lemma labels_NewRequirement_inl key op vals req :
  labels_NewRequirement key op vals = inl req ->
  req = {| req_key := key; req_operator := op; req_strValues := vals |}.
Proof.
  unfold labels_NewRequirement. intros Hreq.
  repeat match type of Hreq with
         | match ?x with _ => _ end = _ => destruct x; try discriminate
         end.
  all: congruence.
Qed.

(** One call of the polling closure. *)
Lemma podsGone_run s :
  let names := appNameList s ++ [oldProvisionerName] in
  (exists err,
      podsGone s =
      ((false, Some err), mkState (world s) (rcv s) names,
       [EvNewRequirement appLabelKey selection_In names (Some err)]))
  \/
  (exists items err w,
      podsGone s =
      (if fatalListError err then (false, err)
       else ((length items =? 0)%nat, None),
       mkState w (rcv s) names,
       [EvNewRequirement appLabelKey selection_In names None;
        EvListPods [retirementRequirement names] items err])).
Proof.
  intros names. unfold podsGone. run_M. fold names.
  destruct (labels_NewRequirement appLabelKey selection_In names) as [req | err] eqn:Hreq.
  - right. apply labels_NewRequirement_inl in Hreq. subst req.
    fold (retirementRequirement names). cbn [world].
    destruct (client_List_Pods [retirementRequirement names] (world s))
      as [[items err] w].
    exists items, err, w. unfold fatalListError.
    destruct (notNil err && negb (errors_IsNotFound err)); [reflexivity |].
    by destruct (length items =? 0)%nat.
  - left. exists err. reflexivity.
Qed.

Lemma backoffLoop_S fuel b condition s :
  backoffLoop (S fuel) b condition s =
  if 0 <? Steps b then
    let '(ok, err, s1, evs1) := condition s in
    if notNil err || ok then (err, s1, evs1)
    else if Steps b =? 1 then (Some ErrWaitTimeout, s1, evs1)
    else
      let '(d, b', s2, evs2) := Backoff_Step b s1 in
      let '(r, s3, evs3) :=
        backoffLoop fuel b' condition (setWorld (time_Sleep d (world s2)) s2) in
      (r, s3, evs1 ++ evs2 ++ EvSleep d :: evs3)
  else (Some ErrWaitTimeout, s, []).
Proof.
  cbn [backoffLoop]. destruct (0 <? Steps b); [| reflexivity].
  unfold mbind, M_bind, bind.
  destruct (condition s) as [[[ok err] s1] evs1].
  destruct (notNil err || ok).
  { unfold ret. by rewrite app_nil_r. }
  destruct (Steps b =? 1).
  { unfold ret. by rewrite app_nil_r. }
  destruct (Backoff_Step b s1) as [[[d b'] s2] evs2].
  unfold Sleep.
  by destruct (backoffLoop fuel b' condition _) as [[r s3] evs3].
Qed.

Lemma retirementNames_snoc base i :
  (base ++ replicate i oldProvisionerName) ++ [oldProvisionerName]
  = retirementNames base i.
Proof. unfold retirementNames. by rewrite replicate_S_end, app_assoc. Qed.

(** The polling loop leaves a [PollTrace], touches neither the receiver
    nor anything but the tail of [appNameList], to which every attempt adds
    one copy of [oldProvisionerName]. *)
Lemma backoffLoop_trace fuel : forall b s base i,
  (Z.to_nat (Steps b) <= fuel)%nat ->
  appNameList s = base ++ replicate i oldProvisionerName ->
  PollTrace base b i
    (events (backoffLoop fuel b podsGone s))
    (result (backoffLoop fuel b podsGone s))
  /\ rcv (final (backoffLoop fuel b podsGone s)) = rcv s
  /\ appNameList (final (backoffLoop fuel b podsGone s))
     = base ++ replicate
         (i + length (requirements (events (backoffLoop fuel b podsGone s))))
         oldProvisionerName.
Proof.
  induction fuel as [| fuel IH]; intros b s base i Hfuel Hnames.
  - cbn. rewrite Nat.add_0_r. split; [apply Poll_spent; lia | done].
  - rewrite backoffLoop_S.
    destruct (0 <? Steps b) eqn:Hpos.
    2: { cbn. rewrite Nat.add_0_r. split; [apply Poll_spent; lia | done]. }
    apply Z.ltb_lt in Hpos.
    destruct (podsGone_run s) as [(err & ->) | (items & err & w & ->)];
      cbv zeta; rewrite Hnames, retirementNames_snoc.
    + cbn. rewrite Nat.add_1_r. split; [by apply Poll_badreq | done].
    + destruct (fatalListError err) eqn:Hfatal.
      { assert (notNil err = true) as ->
          by (unfold fatalListError in Hfatal; by destruct (notNil err)).
        cbn. rewrite Nat.add_1_r. split; [by apply Poll_fatal | done]. }
      cbn [notNil orb].
      destruct items as [| p items].
      { cbn. rewrite Nat.add_1_r. split; [by apply Poll_done | done]. }
      cbn [length Nat.eqb].
      destruct (Steps b =? 1) eqn:Hone.
      { apply Z.eqb_eq in Hone.
        cbn. rewrite Nat.add_1_r. split; [by apply Poll_last | done]. }
      apply Z.eqb_neq in Hone.
      destruct (Backoff_Step_run b
                  {| world := w; rcv := rcv s;
                     appNameList := retirementNames base i |})
        as (x & w' & ->).
      set (s' := setWorld (time_Sleep _ _) _).
      destruct (IH (Backoff_next b) s' base (S i)) as (Htrace & Hrcv & Happ).
      { apply Backoff_next_fuel; lia. }
      { reflexivity. }
      destruct (backoffLoop fuel (Backoff_next b) podsGone s')
        as [[r s3] evs3].
      cbn in Htrace, Hrcv, Happ |- *.
      split; [| split].
      * apply (Poll_again base b i (p :: items) err x evs3 r);
          [lia | done | done | done].
      * done.
      * rewrite Happ, Nat.add_succ_r. reflexivity.
Qed.

Lemma matchesOldPrefix_label ds appLabel :
  Labels (ds_ObjectMeta ds) !! appLabelKey = Some appLabel ->
  matchesOldPrefix ds = hasOldPrefix appLabel.
Proof.
  intros Hlabel. unfold matchesOldPrefix, oldAppLabel. rewrite Hlabel.
  by destruct (hasOldPrefix appLabel).
Qed.

(** The scan loop leaves a [ScanTrace]; when it falls through, the labels
    of the daemonsets it deleted have been appended to [appNameList]. *)
Lemma deleteOldLocalVolumeDaemons_trace items : forall s,
  ScanTrace items
    (events (deleteOldLocalVolumeDaemons items s))
    (result (deleteOldLocalVolumeDaemons items s))
  /\ rcv (final (deleteOldLocalVolumeDaemons items s)) = rcv s
  /\ (result (deleteOldLocalVolumeDaemons items s) = None ->
      appNameList (final (deleteOldLocalVolumeDaemons items s))
      = appNameList s ++ oldAppLabels items).
Proof.
  induction items as [| ds items IH]; intros s.
  - cbn. rewrite app_nil_r. split; [constructor | done].
  - cbn [deleteOldLocalVolumeDaemons]. unfold oldAppLabels. cbn [omap list_omap].
    fold (oldAppLabels items).
    pose proof (matchesOldPrefix_label ds) as Hmatch.
    assert (oldAppLabel ds = None -> matchesOldPrefix ds = false) as Hnone
      by (unfold matchesOldPrefix; by intros ->).
    unfold oldAppLabel in Hnone |- * at 1.
    destruct (Labels (ds_ObjectMeta ds) !! appLabelKey) as [appLabel |] eqn:Hlabel.
    2: { destruct (IH s) as (Htrace & Hrcv & Happ).
         split; [| done]. apply Scan_skip; auto. }
    specialize (Hmatch appLabel eq_refl).
    destruct (hasOldPrefix appLabel) eqn:Hprefix.
    2: { destruct (IH s) as (Htrace & Hrcv & Happ).
         split; [| done]. by apply Scan_skip. }
    run_M. destruct (client_Delete ds (world s)) as [err w].
    destruct (fatalDeleteError err) eqn:Hfatal.
    + cbn. split; [by apply Scan_abort |]. split; [done |].
      intros ->. discriminate.
    + set (s' := setWorld w _).
      destruct (IH s') as (Htrace & Hrcv & Happ).
      destruct (deleteOldLocalVolumeDaemons items s') as [[r s2] evs].
      cbn in Htrace, Hrcv, Happ |- *.
      split; [by apply Scan_delete |]. split; [done |].
      intros Hr. rewrite (Happ Hr). by rewrite <- app_assoc.
Qed.

Lemma deleteOldProvisioner_trace namespace s :
  ProvisionerTrace namespace
    (events (deleteOldProvisioner namespace s))
    (result (deleteOldProvisioner namespace s))
  /\ rcv (final (deleteOldProvisioner namespace s)) = rcv s
  /\ appNameList (final (deleteOldProvisioner namespace s)) = appNameList s.
Proof.
  unfold deleteOldProvisioner. run_M. fold (oldProvisionerKey namespace).
  destruct (client_Get (oldProvisionerKey namespace) (world s)) as [[obj err] w].
  destruct err as [e |]; cbn [notNil negb].
  - destruct (errors_IsNotFound (Some e) || errors_IsGone (Some e)) eqn:Hgone; cbn.
    + split; [by apply Prov_absent | done].
    + split; [by apply Prov_unknown | done].
  - cbn -[fatalDeleteError]. destruct (client_Delete obj w) as [err w'].
    destruct (fatalDeleteError err) eqn:Hfatal; cbn.
    + split; [by apply Prov_abort | done].
    + split; [by apply Prov_delete | done].
Qed.

Lemma PollTrace_nonempty base b i evs r :
  0 < Steps b -> PollTrace base b i evs r -> evs <> [].
Proof. intros Hpos Htrace. destruct Htrace; try done. lia. Qed.

(** [cleanupOldDaemonsets] with the latch unset, phase by phase. *)
Lemma cleanup_run namespace s :
  latch s = false ->
  cleanupOldDaemonsets namespace s =
  let '(items, err, w) := client_List_DaemonSets namespace (world s) in
  let listing := EvListDaemonSets namespace items err in
  if notNil err then (err, setWorld w s, [listing])
  else
    let '(r1, s1, evs1) :=
      deleteOldLocalVolumeDaemons items (mkState w (rcv s) []) in
    if notNil r1 then (r1, s1, listing :: evs1)
    else
      let '(r2, s2, evs2) := deleteOldProvisioner namespace s1 in
      if notNil r2 then (r2, s2, listing :: evs1 ++ evs2)
      else
        let '(r3, s3, evs3) := wait_ExponentialBackoff cleanupBackoff podsGone s2 in
        if notNil r3 then (r3, s3, listing :: evs1 ++ evs2 ++ evs3)
        else
          (None,
           mkState (world s3)
             {| reqLogger := reqLogger (rcv s3); deletedStaticProvisioner := true |}
             (appNameList s3),
           listing :: evs1 ++ evs2 ++ evs3).
Proof.
  unfold latch. intros Hlatch.
  unfold cleanupOldDaemonsets, mbind, M_bind, bind, getReceiver, List_DaemonSets,
    setAppNameList, setDeletedStaticProvisioner, logError, ret.
  rewrite Hlatch.
  destruct (client_List_DaemonSets namespace (world s)) as [[items err] w].
  cbv zeta. destruct (notNil err); [reflexivity |].
  cbn [app world rcv setWorld].
  destruct (deleteOldLocalVolumeDaemons items _) as [[r1 s1] evs1].
  destruct (notNil r1); [by rewrite app_nil_r |].
  destruct (deleteOldProvisioner namespace s1) as [[r2 s2] evs2].
  destruct (notNil r2); [by rewrite app_nil_r |].
  destruct (wait_ExponentialBackoff cleanupBackoff podsGone s2) as [[r3 s3] evs3].
  destruct (notNil r3); by rewrite !app_nil_r.
Qed.


(** ** Consequences of the trace shapes *)

Lemma oldAppLabels_filter items :
  oldAppLabels items
  = omap (fun ds => Labels (ds_ObjectMeta ds) !! appLabelKey)
      (List.filter matchesOldPrefix items).
Proof.
  induction items as [| ds items IH]; [done |].
  unfold oldAppLabels in *. cbn [omap list_omap List.filter].
  unfold matchesOldPrefix, oldAppLabel.
  destruct (Labels (ds_ObjectMeta ds) !! appLabelKey) as [l |] eqn:Hl; [| done].
  destruct (hasOldPrefix l); [| done].
  cbn [omap list_omap]. rewrite Hl. by f_equal.
Qed.

Lemma oldProvisionerName_not_collected items :
  ~ In oldProvisionerName (oldAppLabels items).
Proof.
  induction items as [| ds items IH]; [by intros [] |].
  unfold oldAppLabels in *. cbn [omap list_omap].
  unfold oldAppLabel at 1.
  destruct (Labels (ds_ObjectMeta ds) !! appLabelKey) as [l |]; [| done].
  destruct (hasOldPrefix l) eqn:Hprefix; [| done].
  intros [-> | Hin]; [| done].
  vm_compute in Hprefix. discriminate.
Qed.

Lemma fatalDeleteError_true err :
  fatalDeleteError err = true ->
  notNil err = true /\ errors_IsNotFound err || errors_IsGone err = false.
Proof.
  unfold fatalDeleteError. destruct (notNil err); [| done].
  by destruct (_ || _).
Qed.

Lemma ScanTrace_deletes items evs r :
  ScanTrace items evs r ->
  Forall
    (fun e => exists obj err,
         e = EvDelete obj err /\ In obj items /\ matchesOldPrefix obj = true)
    evs.
Proof.
  induction 1 as [| ds items evs r Hno _ IH | ds items err Hyes Hfatal
                 | ds items err evs r Hyes Hfatal _ IH].
  - constructor.
  - eapply Forall_impl; [exact IH |].
    intros e (obj & err & -> & Hin & Hm). exists obj, err. cbn. auto.
  - constructor; [| constructor]. exists ds, err. cbn. auto.
  - constructor.
    + exists ds, err. cbn. auto.
    + eapply Forall_impl; [exact IH |].
      intros e (obj & err' & -> & Hin & Hm). exists obj, err'. cbn. auto.
Qed.

Lemma ScanTrace_complete items evs :
  ScanTrace items evs None ->
  deleted evs = List.filter matchesOldPrefix items /\ noFatalDelete evs.
Proof.
  remember None as r eqn:Hr. unfold noFatalDelete.
  induction 1 as [| ds items evs r Hno _ IH | ds items err Hyes Hfatal
                 | ds items err evs r Hyes Hfatal _ IH]; subst.
  - by split; [| constructor].
  - destruct (IH eq_refl) as [-> Hall]. cbn. by rewrite Hno.
  - apply fatalDeleteError_true in Hfatal as [Hnil _]. done.
  - destruct (IH eq_refl) as [Hdel Hall]. cbn. rewrite Hyes.
    split; [by f_equal | by constructor].
Qed.

Lemma ScanTrace_abort items evs e :
  ScanTrace items evs (Some e) ->
  exists pre obj,
    evs = pre ++ [EvDelete obj (Some e)]
    /\ fatalDeleteError (Some e) = true /\ noFatalDelete pre.
Proof.
  remember (Some e) as r eqn:Hr. unfold noFatalDelete.
  induction 1 as [| ds items evs r Hno _ IH | ds items err Hyes Hfatal
                 | ds items err evs r Hyes Hfatal _ IH]; subst.
  - done.
  - by apply IH.
  - exists [], ds. by split; [| split; [| constructor]].
  - destruct (IH eq_refl) as (pre & obj & -> & Hf & Hall).
    exists (EvDelete ds err :: pre), obj.
    split; [done |]. split; [done |]. by constructor.
Qed.

Lemma ScanTrace_only_deletes items evs r :
  ScanTrace items evs r -> Forall (fun e => isDelete e = true) evs.
Proof.
  intros Hscan. eapply Forall_impl; [by apply (ScanTrace_deletes items evs r) |].
  by intros e (obj & err & -> & _).
Qed.

Lemma omap_none {A B} (f : A -> option B) (l : list A) :
  Forall (fun x => f x = None) l -> omap f l = [].
Proof.
  induction 1 as [| x l Hx _ IH]; [done |]. cbn. by rewrite Hx.
Qed.

Lemma ScanTrace_quiet items evs r :
  ScanTrace items evs r ->
  requirements evs = [] /\ selectors evs = [] /\ listed evs = []
  /\ fetched evs = [] /\ sleeps evs = [].
Proof.
  intros Hscan. apply ScanTrace_only_deletes in Hscan.
  unfold requirements, selectors, listed, fetched, sleeps.
  rewrite !omap_none; [done | | | | |];
    (eapply Forall_impl; [exact Hscan |]); by intros [].
Qed.

Lemma ProvisionerTrace_quiet namespace evs r :
  ProvisionerTrace namespace evs r ->
  requirements evs = [] /\ selectors evs = [] /\ listed evs = []
  /\ sleeps evs = [] /\ deleted evs = fetched evs.
Proof.
  destruct 1 as [obj err Hnil Hgone | obj err Hgone | obj err Hf | obj err Hf];
    cbn; repeat split; try done.
  - by destruct err.
  - by destruct err.
Qed.

Lemma PollTrace_quiet base b i evs r :
  PollTrace base b i evs r ->
  listed evs = [] /\ fetched evs = [] /\ deleted evs = [].
Proof.
  induction 1; cbn; try done.
Qed.

(** Attempt number [j] of a polling trace asks for the collected names
    followed by [j + 1] copies of [oldProvisionerName]. *)
Lemma PollTrace_requirements base b i evs r :
  PollTrace base b i evs r ->
  forall j vals,
    requirements evs !! j = Some vals -> vals = retirementNames base (i + j).
Proof.
  induction 1 as [| | | | | b i items err x rest r Hsteps Hitems Hfatal _ IH];
    intros j vals Hj; cbn in Hj.
  - done.
  - destruct j; [| done]. rewrite Nat.add_0_r. by injection Hj as <-.
  - destruct j; [| done]. rewrite Nat.add_0_r. by injection Hj as <-.
  - destruct j; [| done]. rewrite Nat.add_0_r. by injection Hj as <-.
  - destruct j; [| done]. rewrite Nat.add_0_r. by injection Hj as <-.
  - destruct j as [| j].
    + rewrite Nat.add_0_r. by injection Hj as <-.
    + rewrite Nat.add_succ_r. by apply IH.
Qed.

(** Every pod listing of a polling trace uses the selector built from the
    names of its own attempt. *)
Lemma PollTrace_selectors base b i evs r :
  PollTrace base b i evs r ->
  forall sel items err,
    In (EvListPods sel items err) evs ->
    exists j,
      requirements evs !! j = Some (retirementNames base (i + j))
      /\ sel = [retirementRequirement (retirementNames base (i + j))].
Proof.
  induction 1 as [| | | | | b i items err x rest r Hsteps Hitems Hfatal _ IH];
    intros sel items' err' Hin; cbn in Hin.
  - done.
  - by destruct Hin as [|[]].
  - destruct Hin as [| [Hin | []]]; [done |].
    injection Hin as <- _ _. exists 0%nat. by rewrite Nat.add_0_r.
  - destruct Hin as [| [Hin | []]]; [done |].
    injection Hin as <- _ _. exists 0%nat. by rewrite Nat.add_0_r.
  - destruct Hin as [| [Hin | []]]; [done |].
    injection Hin as <- _ _. exists 0%nat. by rewrite Nat.add_0_r.
  - destruct Hin as [| [Hin | [| Hin]]]; [done | | done |].
    + injection Hin as <- _ _. exists 0%nat. by rewrite Nat.add_0_r.
    + destruct (IH _ _ _ Hin) as (j & Hj & ->).
      exists (S j). rewrite Nat.add_succ_r. by split.
Qed.

(** The loop never asks more often than [Steps] allows. *)
Lemma PollTrace_attempts base b i evs r :
  PollTrace base b i evs r ->
  (length (requirements evs) <= Z.to_nat (Steps b))%nat.
Proof.
  induction 1 as [| | | | | b i items err x rest r Hsteps Hitems Hfatal _ IH];
    unfold requirements in *; cbn; try lia.
  destruct (Backoff_next_Steps b) as [Hn | Hn]; [lia | |]; rewrite Hn in IH; lia.
Qed.

(** ... nor more often than it takes [Backoff_next] to bring [Steps] to
    zero. *)
Lemma PollTrace_attempts_iter base b i evs r :
  PollTrace base b i evs r ->
  forall n,
    Steps (Nat.iter n Backoff_next b) <= 0 ->
    (length (requirements evs) <= n)%nat.
Proof.
  induction 1 as [| | | | | b i items err x rest r Hsteps Hitems Hfatal _ IH];
    intros n Hn; unfold requirements in *;
    try (destruct n; cbn in Hn; cbn; lia).
  destruct n as [| n]; [cbn in Hn; lia |].
  rewrite Nat.iter_succ_r in Hn. specialize (IH n Hn). cbn. lia.
Qed.

(** The pauses of a polling trace are the jittered durations of the
    successive backoff states. *)
Lemma PollTrace_sleeps base b i evs r :
  PollTrace base b i evs r ->
  forall j d,
    sleeps evs !! j = Some d ->
    exists x, d = jittered (Nat.iter j Backoff_next b) x.
Proof.
  induction 1 as [| | | | | b i items err x rest r Hsteps Hitems Hfatal _ IH];
    intros j d Hj; cbn in Hj; try done.
  destruct j as [| j].
  - injection Hj as <-. by exists x.
  - rewrite Nat.iter_succ_r. by apply IH.
Qed.

(** A polling trace that ends without error ends on an empty pod list. *)
Lemma PollTrace_drained base b i evs :
  PollTrace base b i evs None ->
  exists pre sel err,
    evs = pre ++ [EvListPods sel [] err] /\ fatalListError err = false.
Proof.
  remember None as r eqn:Hr.
  induction 1 as [| | b i items err Hsteps Hfatal | b i err Hsteps Hfatal |
                  | b i items err x rest r Hsteps Hitems Hfatal _ IH]; subst; try done.
  - eexists [_], _, err. split; [reflexivity | done].
  - destruct (IH eq_refl) as (pre & sel & err' & -> & Hf).
    eexists (_ :: _ :: _ :: pre), sel, err'. split; [reflexivity | done].
Qed.

Lemma PollTrace_exhausted base b i evs r :
  PollTrace base b i evs r ->
  Forall (fun e => endsPolling e = false) evs ->
  r = Some ErrWaitTimeout.
Proof.
  induction 1 as [| b i e Hsteps | b i items err Hsteps Hfatal
                 | b i err Hsteps Hfatal |
                 | b i items err x rest r Hsteps Hitems Hfatal _ IH];
    intros Hall; try done.
  - by inversion Hall.
  - inversion Hall as [| ? ? _ Hall']. inversion Hall' as [| ? ? Hends _].
    cbn in Hends. by rewrite Hfatal in Hends.
  - inversion Hall as [| ? ? _ Hall']. inversion Hall' as [| ? ? Hends _].
    cbn in Hends. by rewrite orb_true_r in Hends.
  - apply IH. cbn in Hall.
    by do 3 (apply Forall_cons in Hall as [_ Hall]).
Qed.

Lemma PollTrace_error base b i evs e :
  PollTrace base b i evs (Some e) ->
  e = ErrWaitTimeout \/ exists ev, In ev evs /\ endsPolling ev = true.
Proof.
  remember (Some e) as r eqn:Hr.
  induction 1 as [| b i e' Hsteps | b i items err Hsteps Hfatal
                 | b i err Hsteps Hfatal |
                 | b i items err x rest r Hsteps Hitems Hfatal _ IH]; subst.
  - left. congruence.
  - right. eexists. split; [by left | done].
  - right. eexists. split; [right; by left |].
    unfold endsPolling. by rewrite Hfatal.
  - done.
  - left. congruence.
  - destruct (IH eq_refl) as [-> | (ev & Hin & Hev)]; [by left |].
    right. exists ev. split; [| done]. cbn. auto.
Qed.

Lemma requirements_app evs evs' :
  requirements (evs ++ evs') = requirements evs ++ requirements evs'.
Proof. apply omap_app. Qed.

Lemma selectors_app evs evs' :
  selectors (evs ++ evs') = selectors evs ++ selectors evs'.
Proof. apply omap_app. Qed.

Lemma deleted_app evs evs' : deleted (evs ++ evs') = deleted evs ++ deleted evs'.
Proof. apply omap_app. Qed.

Lemma fetched_app evs evs' : fetched (evs ++ evs') = fetched evs ++ fetched evs'.
Proof. apply omap_app. Qed.

Lemma sleeps_app evs evs' : sleeps (evs ++ evs') = sleeps evs ++ sleeps evs'.
Proof. apply omap_app. Qed.

Lemma listed_app evs evs' : listed (evs ++ evs') = listed evs ++ listed evs'.
Proof. unfold listed. by rewrite omap_app, join_app. Qed.

Lemma In_omap_lookup {A} (l : list A) x : In x l <-> exists j, l !! j = Some x.
Proof. rewrite <- list_elem_of_In. apply list_elem_of_lookup. Qed.

Lemma In_selectors evs sel :
  In sel (selectors evs) <-> exists items err, In (EvListPods sel items err) evs.
Proof.
  unfold selectors. rewrite <- list_elem_of_In, list_elem_of_omap. split.
  - intros (e & Hin & He). destruct e; try done. injection He as ->.
    apply list_elem_of_In in Hin. eauto.
  - intros (items & err & Hin). eexists. split; [by apply list_elem_of_In |]. done.
Qed.

Lemma In_deleted evs obj :
  In obj (deleted evs) <-> exists err, In (EvDelete obj err) evs.
Proof.
  unfold deleted. rewrite <- list_elem_of_In, list_elem_of_omap. split.
  - intros (e & Hin & He). destruct e; try done. injection He as ->.
    apply list_elem_of_In in Hin. eauto.
  - intros (err & Hin). eexists. split; [by apply list_elem_of_In |]. done.
Qed.

Lemma retirementNames_elem base j v :
  v ∈ retirementNames base j <-> v ∈ base \/ v = oldProvisionerName.
Proof.
  unfold retirementNames. rewrite elem_of_app, replicate_S, elem_of_cons.
  split; [| tauto].
  intros [? | [? | Hin]]; [tauto | tauto |].
  apply elem_of_replicate in Hin. tauto.
Qed.

(** With the operator [in], what a requirement matches depends on the set
    of its values only, so all attempts select the same pods. *)
Lemma retirement_selector_same base j j' ls :
  Selector_Matches [retirementRequirement (retirementNames base j)] ls
  = Selector_Matches [retirementRequirement (retirementNames base j')] ls.
Proof.
  unfold Selector_Matches, Requirement_Matches, Requirement_hasValue. cbn.
  destruct (ls !! appLabelKey) as [v |]; [| done].
  f_equal. apply bool_decide_ext. by rewrite !retirementNames_elem.
Qed.

Lemma Reached_intro namespace items scan prov poll r :
  ScanTrace items scan None ->
  ProvisionerTrace namespace prov None ->
  PollTrace (oldAppLabels items) cleanupBackoff 0 poll r ->
  Reached namespace (EvListDaemonSets namespace items None :: scan ++ prov ++ poll)
    r items scan prov poll.
Proof.
  intros Hscan Hprov Hpoll.
  destruct (ScanTrace_quiet _ _ _ Hscan) as (Hs1 & Hs2 & Hs3 & Hs4 & Hs5).
  destruct (ProvisionerTrace_quiet _ _ _ Hprov) as (Hp1 & Hp2 & Hp3 & Hp4 & Hp5).
  destruct (PollTrace_quiet _ _ _ _ _ Hpoll) as (Hl1 & Hl2 & Hl3).
  destruct (ScanTrace_complete _ _ Hscan) as (Hdel & _).
  split; try done.
  - change (items ++ listed (scan ++ prov ++ poll) = items).
    by rewrite !listed_app, Hs3, Hp3, Hl1, app_nil_r.
  - change (requirements (scan ++ prov ++ poll) = requirements poll).
    by rewrite !requirements_app, Hs1, Hp1.
  - change (selectors (scan ++ prov ++ poll) = selectors poll).
    by rewrite !selectors_app, Hs2, Hp2.
  - change (sleeps (scan ++ prov ++ poll) = sleeps poll).
    by rewrite !sleeps_app, Hs5, Hp4.
  - change (deleted (scan ++ prov ++ poll)
            = List.filter matchesOldPrefix items ++ fetched (scan ++ prov ++ poll)).
    by rewrite !deleted_app, !fetched_app, Hs4, Hl2, Hl3, Hdel, Hp5, !app_nil_r.
Qed.

(** A cleanup either stops before its drain wait, with an error and
    without any requirement, selector or pause, or reaches it. *)
Lemma CleanupTrace_cases namespace evs r :
  CleanupTrace namespace evs r ->
  (requirements evs = [] /\ selectors evs = [] /\ sleeps evs = []
   /\ notNil r = true)
  \/ exists items scan prov poll, Reached namespace evs r items scan prov poll.
Proof.
  destruct 1 as [items err Hnil | items scan err Hscan
                | items scan prov err Hscan Hprov
                | items scan prov poll r Hscan Hprov Hpoll Hne].
  - by left.
  - left. destruct (ScanTrace_quiet _ _ _ Hscan) as (Hq1 & Hq2 & _ & _ & Hq3).
    change (requirements scan = [] /\ selectors scan = [] /\ sleeps scan = []
            /\ true = true).
    by rewrite Hq1, Hq2, Hq3.
  - left. destruct (ScanTrace_quiet _ _ _ Hscan) as (Hq1 & Hq2 & _ & _ & Hq3).
    destruct (ProvisionerTrace_quiet _ _ _ Hprov) as (Hp1 & Hp2 & _ & Hp3 & _).
    change (requirements (scan ++ prov) = [] /\ selectors (scan ++ prov) = []
            /\ sleeps (scan ++ prov) = [] /\ true = true).
    by rewrite requirements_app, selectors_app, sleeps_app, Hq1, Hq2, Hq3, Hp1, Hp2, Hp3.
  - right. exists items, scan, prov, poll. by apply Reached_intro.
Qed.

Lemma CleanupTrace_reached namespace evs r :
  CleanupTrace namespace evs r ->
  requirements evs <> [] ->
  exists items scan prov poll, Reached namespace evs r items scan prov poll.
Proof.
  intros Htrace Hreq.
  by destruct (CleanupTrace_cases _ _ _ Htrace) as [(Hnil & _) | Hr].
Qed.

(** A run of [cleanupOldDaemonsets] with the latch unset leaves a
    [CleanupTrace]; it keeps the logger, sets the latch exactly when it
    returns [nil], and, once it has reached the drain wait, leaves in
    [appNameList] the collected labels followed by one copy of
    [oldProvisionerName] per attempt. *)
Lemma cleanup_trace namespace s :
  latch s = false ->
  CleanupTrace namespace
    (events (cleanupOldDaemonsets namespace s))
    (result (cleanupOldDaemonsets namespace s))
  /\ reqLogger (rcv (final (cleanupOldDaemonsets namespace s))) = reqLogger (rcv s)
  /\ latch (final (cleanupOldDaemonsets namespace s))
     = negb (notNil (result (cleanupOldDaemonsets namespace s)))
  /\ (requirements (events (cleanupOldDaemonsets namespace s)) <> [] ->
      appNameList (final (cleanupOldDaemonsets namespace s))
      = oldAppLabels (listed (events (cleanupOldDaemonsets namespace s)))
        ++ replicate
             (length (requirements (events (cleanupOldDaemonsets namespace s))))
             oldProvisionerName).
Proof.
  intros Hlatch. rewrite (cleanup_run namespace s Hlatch).
  unfold latch in *.
  destruct (client_List_DaemonSets namespace (world s)) as [[items err] w].
  cbv zeta. destruct err as [e |]; cbn [notNil].
  { cbn. split; [by apply Cleanup_nolist | done]. }
  set (s0 := mkState _ _ []).
  destruct (deleteOldLocalVolumeDaemons_trace items s0) as (Hscan & Hrcv1 & Happ1).
  destruct (deleteOldLocalVolumeDaemons items s0) as [[r1 s1] evs1].
  cbn in Hscan, Hrcv1, Happ1.
  destruct r1 as [e |]; cbn [notNil].
  { cbn [events result final fst snd]. rewrite Hrcv1.
    split; [by apply Cleanup_scan |]. do 2 (split; [done |]).
    destruct (ScanTrace_quiet _ _ _ Hscan) as (Hq & _).
    intros Hreq. change (requirements evs1 <> []) in Hreq.
    by rewrite Hq in Hreq. }
  destruct (deleteOldProvisioner_trace namespace s1) as (Hprov & Hrcv2 & Happ2).
  destruct (deleteOldProvisioner namespace s1) as [[r2 s2] evs2].
  cbn in Hprov, Hrcv2, Happ2.
  destruct r2 as [e |]; cbn [notNil].
  { cbn [events result final fst snd]. rewrite Hrcv2, Hrcv1.
    split; [by apply Cleanup_provisioner |]. do 2 (split; [done |]).
    destruct (ScanTrace_quiet _ _ _ Hscan) as (Hq & _).
    destruct (ProvisionerTrace_quiet _ _ _ Hprov) as (Hq' & _).
    intros Hreq. change (requirements (evs1 ++ evs2) <> []) in Hreq.
    by rewrite requirements_app, Hq, Hq' in Hreq. }
  unfold wait_ExponentialBackoff.
  destruct (backoffLoop_trace (Z.to_nat (Steps cleanupBackoff)) cleanupBackoff s2
              (oldAppLabels items) 0) as (Hpoll & Hrcv3 & Happ3).
  { done. }
  { cbn. rewrite app_nil_r, Happ2. by apply Happ1. }
  destruct (backoffLoop _ cleanupBackoff podsGone s2) as [[r3 s3] evs3].
  cbn in Hpoll, Hrcv3, Happ3.
  assert (evs3 <> []) as Hne by (by apply PollTrace_nonempty in Hpoll).
  pose proof (Reached_intro namespace _ _ _ _ _ Hscan Hprov Hpoll) as Hreached.
  assert (appNameList s3
          = oldAppLabels (listed (EvListDaemonSets namespace items None
                                    :: evs1 ++ evs2 ++ evs3))
            ++ replicate
                 (length (requirements (EvListDaemonSets namespace items None
                                          :: evs1 ++ evs2 ++ evs3)))
                 oldProvisionerName) as Hnames.
  { by rewrite (reached_listed _ _ _ _ _ _ _ Hreached),
      (reached_requirements _ _ _ _ _ _ _ Hreached). }
  destruct r3 as [e |]; cbn [notNil];
    cbn [events result final fst snd appNameList rcv reqLogger
           deletedStaticProvisioner negb notNil];
    rewrite Hrcv3, Hrcv2, Hrcv1;
    (split; [by apply Cleanup_poll | done]).
Qed.

(** With the latch set, [cleanupOldDaemonsets] does nothing at all. *)
Lemma cleanup_latched namespace s :
  latch s = true -> cleanupOldDaemonsets namespace s = (None, s, []).
Proof.
  unfold latch. intros Hlatch.
  unfold cleanupOldDaemonsets, mbind, M_bind, bind, getReceiver.
  by rewrite Hlatch.
Qed.

Lemma PollTrace_events base b i evs r :
  PollTrace base b i evs r -> Forall (fun e => isPollEvent e = true) evs.
Proof.
  induction 1; repeat constructor. done.
Qed.

Lemma ProvisionerTrace_events namespace evs r :
  ProvisionerTrace namespace evs r ->
  Forall (fun e => isCleanupEvent namespace e = true) evs
  /\ (length (fetched evs) <= 1)%nat
  /\ (forall obj err,
         In (EvDelete obj err) evs ->
         In (EvGet (oldProvisionerKey namespace) obj None) evs).
Proof.
  destruct 1 as [obj err Hnil Hgone | obj err Hgone | obj err Hf | obj err Hf].
  - split; [| split].
    + repeat constructor. cbn. by rewrite bool_decide_eq_true.
    + cbn. destruct err; cbn; lia.
    + by intros obj' err' [? | []].
  - split; [| split].
    + repeat constructor. cbn. by rewrite bool_decide_eq_true.
    + cbn. destruct err; cbn; lia.
    + by intros obj' err' [? | []].
  - split; [| split].
    + repeat constructor. cbn. by rewrite bool_decide_eq_true.
    + cbn. lia.
    + intros obj' err' [? | [Heq | []]]; [done |]. injection Heq as <- _. by left.
  - split; [| split].
    + repeat constructor. cbn. by rewrite bool_decide_eq_true.
    + cbn. lia.
    + intros obj' err' [? | [Heq | []]]; [done |]. injection Heq as <- _. by left.
Qed.

Lemma isPollEvent_cleanup namespace e :
  isPollEvent e = true -> isCleanupEvent namespace e = true.
Proof. by destruct e. Qed.

Lemma isDelete_cleanup namespace e :
  isDelete e = true -> isCleanupEvent namespace e = true.
Proof. by destruct e. Qed.

(** Every call of a cleanup is one of its own calls; it fetches at most
    one object; and whatever it deletes was either listed with a
    deprecated label or fetched under the deprecated name. *)
Lemma CleanupTrace_events namespace evs r :
  CleanupTrace namespace evs r ->
  Forall (fun e => isCleanupEvent namespace e = true) evs
  /\ (length (fetched evs) <= 1)%nat
  /\ (forall obj err,
         In (EvDelete obj err) evs ->
         (In obj (listed evs) /\ matchesOldPrefix obj = true)
         \/ In (EvGet (oldProvisionerKey namespace) obj None) evs).
Proof.
  assert (isCleanupEvent namespace (EvListDaemonSets namespace [] None) = true)
    as Hlist by (cbn; by rewrite bool_decide_eq_true).
  destruct 1 as [items err Hnil | items scan err Hscan
                | items scan prov err Hscan Hprov
                | items scan prov poll r Hscan Hprov Hpoll Hne].
  - split; [by repeat constructor |]. split; [cbn; lia |].
    by intros obj err' [? | []].
  - pose proof (ScanTrace_only_deletes _ _ _ Hscan) as Hdel.
    destruct (ScanTrace_quiet _ _ _ Hscan) as (_ & _ & Hs3 & Hs4 & _).
    split; [| split].
    + constructor; [done |].
      eapply Forall_impl; [exact Hdel |]. apply isDelete_cleanup.
    + change (length (fetched scan) <= 1)%nat. rewrite Hs4. cbn. lia.
    + intros obj err' [? | Hin]; [done |]. left.
      change (In obj (items ++ listed scan) /\ matchesOldPrefix obj = true).
      rewrite Hs3, app_nil_r.
      pose proof (ScanTrace_deletes _ _ _ Hscan) as Hall.
      rewrite List.Forall_forall in Hall.
      destruct (Hall _ Hin) as (obj' & err'' & Heq & Hitems & Hm).
      by injection Heq as <- _.
  - pose proof (ScanTrace_only_deletes _ _ _ Hscan) as Hdel.
    destruct (ScanTrace_quiet _ _ _ Hscan) as (_ & _ & Hs3 & Hs4 & _).
    destruct (ProvisionerTrace_quiet _ _ _ Hprov) as (_ & _ & Hp3 & _ & _).
    destruct (ProvisionerTrace_events _ _ _ Hprov) as (Hpe & Hpf & Hpd).
    split; [| split].
    + constructor; [done |]. apply Forall_app. split; [| done].
      eapply Forall_impl; [exact Hdel |]. apply isDelete_cleanup.
    + change (length (fetched (scan ++ prov)) <= 1)%nat.
      by rewrite fetched_app, Hs4.
    + intros obj err' [? | Hin]; [done |].
      apply in_app_or in Hin as [Hin | Hin].
      * left.
        change (In obj (items ++ listed (scan ++ prov)) /\ matchesOldPrefix obj = true).
        rewrite listed_app, Hs3, Hp3, app_nil_r.
        pose proof (ScanTrace_deletes _ _ _ Hscan) as Hall.
        rewrite List.Forall_forall in Hall.
        destruct (Hall _ Hin) as (obj' & err'' & Heq & Hitems & Hm).
        by injection Heq as <- _.
      * right. right. apply in_or_app. right. by apply (Hpd obj err').
  - pose proof (ScanTrace_only_deletes _ _ _ Hscan) as Hdel.
    destruct (ScanTrace_quiet _ _ _ Hscan) as (_ & _ & Hs3 & Hs4 & _).
    destruct (ProvisionerTrace_quiet _ _ _ Hprov) as (_ & _ & Hp3 & _ & _).
    destruct (ProvisionerTrace_events _ _ _ Hprov) as (Hpe & Hpf & Hpd).
    destruct (PollTrace_quiet _ _ _ _ _ Hpoll) as (Hl1 & Hl2 & Hl3).
    pose proof (PollTrace_events _ _ _ _ _ Hpoll) as Hle.
    split; [| split].
    + constructor; [done |]. apply Forall_app. split.
      { eapply Forall_impl; [exact Hdel |]. apply isDelete_cleanup. }
      apply Forall_app. split; [done |].
      eapply Forall_impl; [exact Hle |]. apply isPollEvent_cleanup.
    + change (length (fetched (scan ++ prov ++ poll)) <= 1)%nat.
      by rewrite !fetched_app, Hs4, Hl2, app_nil_r.
    + intros obj err' [? | Hin]; [done |].
      apply in_app_or in Hin as [Hin | Hin]; [| apply in_app_or in Hin as [Hin | Hin]].
      * left.
        change (In obj (items ++ listed (scan ++ prov ++ poll))
                /\ matchesOldPrefix obj = true).
        rewrite !listed_app, Hs3, Hp3, Hl1, app_nil_r.
        pose proof (ScanTrace_deletes _ _ _ Hscan) as Hall.
        rewrite List.Forall_forall in Hall.
        destruct (Hall _ Hin) as (obj' & err'' & Heq & Hitems & Hm).
        by injection Heq as <- _.
      * right. right. apply in_or_app. right. apply in_or_app. left.
        by apply (Hpd obj err').
      * rewrite List.Forall_forall in Hle. by specialize (Hle _ Hin).
Qed.

Lemma snoc_split {A} (pre pre' post : list A) (x last : A) :
  pre' ++ x :: post = pre ++ [last] ->
  (post = [] /\ pre' = pre /\ x = last) \/ (post <> [] /\ In x pre).
Proof.
  intros Heq. destruct post as [| y post] using rev_ind.
  - left. apply app_inj_tail in Heq as [-> ->]. done.
  - right. split; [by destruct post |].
    clear IHpost.
    rewrite app_comm_cons, app_assoc in Heq.
    apply app_inj_tail in Heq as [<- _].
    apply in_or_app. right. by left.
Qed.

Lemma noFatalDelete_app evs evs' :
  noFatalDelete evs -> noFatalDelete evs' -> noFatalDelete (evs ++ evs').
Proof. unfold noFatalDelete. intros. by apply Forall_app. Qed.

Lemma noFatalDelete_poll evs :
  Forall (fun e => isPollEvent e = true) evs -> noFatalDelete evs.
Proof.
  unfold noFatalDelete. intros Hall.
  eapply Forall_impl; [exact Hall |]. by intros [].
Qed.

Lemma ProvisionerTrace_passed namespace evs :
  ProvisionerTrace namespace evs None -> noFatalDelete evs.
Proof.
  unfold noFatalDelete. remember None as r eqn:Hr.
  destruct 1 as [obj err Hnil Hgone | obj err Hgone | obj err Hf | obj err Hf]; subst.
  - done.
  - by repeat constructor.
  - done.
  - by repeat constructor.
Qed.

(** A cleanup trace ends either on the delete that was refused, which
    is then its result, or on a call that is no delete; no delete before
    the last call was refused. *)
Lemma CleanupTrace_last namespace evs r :
  CleanupTrace namespace evs r ->
  exists pre last,
    evs = pre ++ [last] /\ noFatalDelete pre
    /\ ((exists obj, last = EvDelete obj r /\ fatalDeleteError r = true)
        \/ isDelete last = false).
Proof.
  destruct 1 as [items err Hnil | items scan err Hscan
                | items scan prov err Hscan Hprov
                | items scan prov poll r Hscan Hprov Hpoll Hne].
  - exists [], (EvListDaemonSets namespace items err).
    split; [done |]. split; [constructor | by right].
  - destruct (ScanTrace_abort _ _ _ Hscan) as (pre & obj & -> & Hfatal & Hpre).
    exists (EvListDaemonSets namespace items None :: pre), (EvDelete obj (Some err)).
    split; [done |]. split; [by constructor |]. left. by exists obj.
  - destruct (ScanTrace_complete _ _ Hscan) as (_ & Hpre).
    remember (Some err) as r eqn:Hr.
    destruct Hprov as [obj e Hnil Hgone | obj e Hgone | obj e Hf | obj e Hf];
      try done.
    + exists (EvListDaemonSets namespace items None :: scan), (EvGet (oldProvisionerKey namespace) obj e).
      split; [done |]. split; [by constructor | by right].
    + exists (EvListDaemonSets namespace items None :: scan
                ++ [EvGet (oldProvisionerKey namespace) obj None]),
        (EvDelete obj e).
      split; [cbn; by rewrite <- app_assoc |]. split.
      * constructor; [done |]. apply noFatalDelete_app; [done |].
        by repeat constructor.
      * left. by exists obj.
  - destruct (ScanTrace_complete _ _ Hscan) as (_ & Hpre).
    pose proof (ProvisionerTrace_passed _ _ Hprov) as Hpre'.
    pose proof (PollTrace_events _ _ _ _ _ Hpoll) as Hall.
    destruct (exists_last Hne) as (poll' & last & ->).
    apply Forall_app in Hall as [Hall Hlast].
    exists (EvListDaemonSets namespace items None :: scan ++ prov ++ poll'), last.
    split; [cbn; by rewrite <- !app_assoc |]. split.
    + constructor; [done |].
      apply noFatalDelete_app; [done |]. apply noFatalDelete_app; [done |].
      by apply noFatalDelete_poll.
    + right. apply Forall_inv in Hlast. by destruct last.
Qed.

(** With the latch unset, a cleanup begins by listing the daemonsets. *)
Lemma cleanup_rescans namespace s :
  latch s = false ->
  exists items err rest,
    events (cleanupOldDaemonsets namespace s)
    = EvListDaemonSets namespace items err :: rest.
Proof.
  intros Hlatch. rewrite (cleanup_run namespace s Hlatch).
  destruct (client_List_DaemonSets namespace (world s)) as [[items err] w].
  exists items, err. cbv zeta.
  destruct (notNil err); [by eexists |].
  destruct (deleteOldLocalVolumeDaemons items _) as [[r1 s1] evs1].
  destruct (notNil r1); [by eexists |].
  destruct (deleteOldProvisioner namespace s1) as [[r2 s2] evs2].
  destruct (notNil r2); [by eexists |].
  destruct (wait_ExponentialBackoff cleanupBackoff podsGone s2) as [[r3 s3] evs3].
  destruct (notNil r3); by eexists.
Qed.

(** ** [Reconcile] *)

Lemma CreateOrUpdateDaemonset_trace mutateFn s :
  let run := CreateOrUpdateDaemonset mutateFn s in
  let identity := ds_ObjectMeta (mutateFn emptyDaemonSet) in
  UpsertTrace mutateFn
    {| nn_Name := Name identity; nn_Namespace := Namespace identity |}
    (events run) (fst (fst (result run))) (snd (result run))
  /\ rcv (final run) = rcv s.
Proof.
  unfold CreateOrUpdateDaemonset. run_M.
  set (key := {| nn_Namespace := _; nn_Name := _ |}).
  destruct (client_Get key (world s)) as [[found err] w].
  fold (fatalListError err).
  destruct (fatalListError err) eqn:Hfatal.
  { cbn. split; [by apply Upsert_nofetch | done]. }
  destruct (bool_decide _) eqn:Hsame.
  { apply bool_decide_eq_true in Hsame. cbn.
    split; [| done]. rewrite Hsame.
    by apply (Upsert_unchanged mutateFn key found err). }
  destruct (errors_IsNotFound err) eqn:Habsent; cbn.
  - destruct (client_Create (mutateFn emptyDaemonSet) w) as [werr w'].
    destruct werr as [e |]; cbn; (split; [by apply Upsert_create | done]).
  - destruct (client_Update (mutateFn found) w) as [werr w'].
    destruct werr as [e |]; cbn; (split; [by apply Upsert_update | done]).
Qed.

(** [Reconcile], step by step. *)
Lemma Reconcile_run request s :
  Reconcile request s =
  let '(err, s1, evs1) :=
    cleanupOldDaemonsets (req_Namespace request) (entered request s) in
  if notNil err then (emptyResult, err, s1, evs1)
  else
    let '(info, err, w) := aggregateDeamonInfo request (world s1) in
    let aggregated := EvAggregateDeamonInfo request info err in
    if notNil err then (emptyResult, err, setWorld w s1, evs1 ++ [aggregated])
    else if (length (lvSets_Items info) <? 1)%nat && (length (lvs_Items info) <? 1)%nat
    then (emptyResult, None, setWorld w s1, evs1 ++ [aggregated])
    else
      let '(configMap, opResult, err, w') :=
        reconcileProvisionerConfigMap request (lvSets_Items info) (lvs_Items info)
          (ownerRefs info) w in
      let configured :=
        EvReconcileProvisionerConfigMap request configMap opResult err in
      if notNil err
      then (emptyResult, err, setWorld w' s1, evs1 ++ [aggregated; configured])
      else
        let '(_, _, err, s2, evs2) :=
          CreateOrUpdateDaemonset
            (getDiskMakerDSMutateFn request (tolerations info) (ownerRefs info)
               (nodeSelector info) (dataHash (Data configMap)))
            (setWorld w' s1) in
        (emptyResult, err, s2, evs1 ++ [aggregated; configured] ++ evs2).
Proof.
  unfold Reconcile, mbind, M_bind, bind, setReqLogger, callAggregateDeamonInfo,
    callReconcileProvisionerConfigMap, logInfo.
  unfold ret.
  fold (entered request s).
  destruct (cleanupOldDaemonsets _ (entered request s)) as [[err s1] evs1].
  destruct (notNil err); [by rewrite app_nil_r |].
  destruct (aggregateDeamonInfo request (world s1)) as [[info err'] w].
  cbv zeta. destruct (notNil err'); [by rewrite app_nil_r |].
  destruct (_ && _); [by rewrite app_nil_r |].
  cbn [world setWorld rcv appNameList].
  destruct (reconcileProvisionerConfigMap _ _ _ _ w) as [[[configMap opResult] err''] w'].
  destruct (notNil err''); [by rewrite app_nil_r |].
  destruct (changed opResult);
    (destruct (CreateOrUpdateDaemonset _ _) as [[[[ds opResult'] err3] s2] evs2];
     destruct (notNil err3) eqn:Hnil;
     [| destruct (changed opResult') ];
     cbn [app]; rewrite ?app_nil_r; reflexivity).
Qed.

Lemma Reconcile_latched request s :
  latch s = true -> latch (final (Reconcile request s)) = true.
Proof.
  intros Hlatch. rewrite Reconcile_run.
  assert (latch (entered request s) = true) as Hentered by done.
  rewrite (cleanup_latched _ _ Hentered). cbn [notNil].
  destruct (aggregateDeamonInfo request _) as [[info err] w].
  cbv zeta. destruct (notNil err); [done |].
  destruct (_ && _); [done |].
  destruct (reconcileProvisionerConfigMap _ _ _ _ w) as [[[cm op] err'] w'].
  destruct (notNil err'); [done |].
  match goal with
  | |- context [CreateOrUpdateDaemonset ?f ?s0] =>
      destruct (CreateOrUpdateDaemonset_trace f s0) as (_ & Hrcv);
      destruct (CreateOrUpdateDaemonset f s0) as [[[[ds op'] err''] s2] evs2]
  end.
  unfold latch. cbn in Hrcv |- *. by rewrite Hrcv.
Qed.

Lemma runOps_latched ops : forall s,
  latch s = true -> latch (runOps ops s) = true.
Proof.
  induction ops as [| op ops IH]; intros s Hlatch; [done |].
  cbn. apply IH. destruct op as [request | namespace]; cbn.
  - by apply Reconcile_latched.
  - by rewrite cleanup_latched.
Qed.

Lemma isCleanupEvent_not_later namespace e :
  isCleanupEvent namespace e = true -> isLaterStep e = false.
Proof.
  destruct e; try done. cbn. intros Hkey.
  apply bool_decide_eq_true in Hkey. by subst.
Qed.

Lemma isLaterStep_isUpsert e : isLaterStep e = false -> isUpsert e = false.
Proof. by destruct e. Qed.

(** Whatever the latch, a cleanup makes none of the calls of the later
    steps of [Reconcile]. *)
Lemma cleanup_no_later_step namespace s :
  Forall (fun e => isLaterStep e = false)
    (events (cleanupOldDaemonsets namespace s)).
Proof.
  destruct (latch s) eqn:Hlatch.
  - by rewrite cleanup_latched.
  - destruct (cleanup_trace namespace s Hlatch) as (Htrace & _).
    destruct (CleanupTrace_events _ _ _ Htrace) as (Hall & _).
    eapply Forall_impl; [exact Hall |]. apply isCleanupEvent_not_later.
Qed.

Lemma prefix_split {A} (P : A -> Prop) (l1 l2 pre post : list A) (x : A) :
  Forall P l1 -> ~ P x ->
  l1 ++ l2 = pre ++ x :: post ->
  exists pre', pre = l1 ++ pre' /\ l2 = pre' ++ x :: post.
Proof.
  intros Hall Hx. revert pre.
  induction Hall as [| a l1 Ha _ IH]; intros pre Heq.
  - by exists pre.
  - destruct pre as [| a' pre]; cbn in Heq.
    + injection Heq as -> _. done.
    + injection Heq as -> Heq. destruct (IH pre Heq) as (pre' & -> & ->).
      by exists pre'.
Qed.

Lemma PollTrace_head base b i evs r :
  PollTrace base b i evs r ->
  (evs = [] /\ r = Some ErrWaitTimeout)
  \/ exists vals rerr rest,
      evs = EvNewRequirement appLabelKey selection_In vals rerr :: rest.
Proof. destruct 1; [by left | right; by eexists _, _, _ ..]. Qed.

(** What follows a pod listing in a polling trace: nothing, when it
    failed or came back empty; otherwise a pause and the next attempt, or
    the end of the budget. *)
Lemma PollTrace_after_listing base b i evs r :
  PollTrace base b i evs r ->
  forall pre sel items err post,
    evs = pre ++ EvListPods sel items err :: post ->
    (fatalListError err = true -> post = [] /\ r = err)
    /\ (fatalListError err = false -> items = [] -> post = [] /\ r = None)
    /\ (fatalListError err = false -> items <> [] ->
        (exists d vals rerr post',
            post = EvSleep d
                     :: EvNewRequirement appLabelKey selection_In vals rerr :: post')
        \/ ((post = [] \/ exists d, post = [EvSleep d])
            /\ r = Some ErrWaitTimeout)).
Proof.
  induction 1 as [b i Hsteps | b i e Hsteps
                 | b i items0 err0 Hsteps Hfatal | b i err0 Hsteps Hfatal
                 | b i items0 err0 Hone Hitems Hfatal
                 | b i items0 err0 x rest r Hsteps Hitems Hfatal Hrest IH];
    intros pre sel items err post Heq.
  - by destruct pre.
  - by destruct pre as [| ? [| ? ?]].
  - destruct pre as [| ? [| ? [| ? ?]]]; try done.
    injection Heq as _ _ <- <- <-. rewrite Hfatal. by repeat split.
  - destruct pre as [| ? [| ? [| ? ?]]]; try done.
    injection Heq as _ _ <- <- <-. rewrite Hfatal. by repeat split.
  - destruct pre as [| ? [| ? [| ? ?]]]; try done.
    injection Heq as _ _ <- <- <-. rewrite Hfatal.
    split; [done |]. split; [done |]. intros _ _. right. split; [by left | done].
  - destruct pre as [| e1 [| e2 [| e3 pre]]]; try done.
    + injection Heq as _ _ <- <- <-. rewrite Hfatal.
      split; [done |]. split; [done |]. intros _ _.
      destruct (PollTrace_head _ _ _ _ _ Hrest)
        as [(-> & ->) | (vals & rerr & rest' & ->)].
      * right. split; [right; by eexists | done].
      * left. by eexists _, _, _, _.
    + injection Heq as _ _ _ Heq. by apply (IH pre sel items err post).
Qed.

Lemma podsGone_outcome s sel items err :
  In (EvListPods sel items err) (events (podsGone s)) ->
  result (podsGone s)
  = if fatalListError err then (false, err) else ((length items =? 0)%nat, None).
Proof.
  destruct (podsGone_run s) as [(e & ->) | (items0 & err0 & w & ->)]; cbn.
  - by intros [? | []].
  - intros [? | [Heq | []]]; [done |]. by injection Heq as _ <- <-.
Qed.

Lemma ProvisionerTrace_not_poll namespace evs r :
  ProvisionerTrace namespace evs r -> Forall (fun e => isPollEvent e = false) evs.
Proof. destruct 1; by repeat constructor. Qed.

(** C1: once the latch [deletedStaticProvisioner] is set, it stays set
    through any sequence of [Reconcile] and [cleanupOldDaemonsets] calls,
    and every later [cleanupOldDaemonsets] returns [nil] at once: the state
    is untouched and no call is made.  Starting with the latch unset, a
    cleanup sets the latch exactly when it returns [nil], and then the last
    thing it did was a pod listing of the drain wait that came back empty
    and without a fatal error. *)
Theorem cleanup_latch_absorbing (s : State W) :
  (latch s = true ->
   forall ops,
     latch (runOps ops s) = true
     /\ forall namespace,
         cleanupOldDaemonsets namespace (runOps ops s)
         = (None, runOps ops s, []))
  /\ (latch s = false ->
      forall namespace,
        let run := cleanupOldDaemonsets namespace s in
        (latch (final run) = true <-> result run = None)
        /\ (latch (final run) = true ->
            exists pre sel err,
              events run = pre ++ [EvListPods sel [] err]
              /\ fatalListError err = false)).
Proof.
  split.
  - intros Hlatch ops.
    pose proof (runOps_latched ops s Hlatch) as Hstill.
    split; [done |]. intros namespace. by apply cleanup_latched.
  - intros Hlatch namespace run.
    destruct (cleanup_trace namespace s Hlatch) as (Htrace & _ & Hfinal & _).
    fold run in Htrace, Hfinal.
    assert (latch (final run) = true <-> result run = None) as Hiff.
    { rewrite Hfinal. by destruct (result run). }
    split; [done |]. intros Hset. apply Hiff in Hset.
    destruct (CleanupTrace_cases _ _ _ Htrace)
      as [(_ & _ & _ & Hnil) | (items & scan & prov & poll & Hr)].
    { by rewrite Hset in Hnil. }
    pose proof (reached_poll _ _ _ _ _ _ _ Hr) as Hpoll.
    rewrite Hset in Hpoll.
    destruct (PollTrace_drained _ _ _ _ Hpoll) as (pre & sel & err & -> & Hfatal).
    rewrite (reached_events _ _ _ _ _ _ _ Hr).
    exists (EvListDaemonSets namespace items None :: scan ++ prov ++ pre), sel, err.
    split; [| done]. cbn. by rewrite <- !app_assoc.
Qed.

(** C2 (amended): in a run of [cleanupOldDaemonsets] that starts with the
    latch unset and reaches the drain wait, the objects deleted are exactly
    the listed daemonsets whose [app] label starts with one of the two
    deprecated prefixes, followed by the daemonset fetched under the
    deprecated exact name (when there is one); every fetch is for that name.
    The names given to the drain poll are the [app] labels of the
    prefix-matched daemonsets followed by the deprecated exact name itself,
    once more per attempt: the label of the exact-named daemonset is not
    consulted.  Every pod listing selects on these names. *)
Theorem cleanup_retirement_set (namespace : string) (s : State W) :
  latch s = false ->
  let run := cleanupOldDaemonsets namespace s in
  requirements (events run) <> [] ->
  deleted (events run)
  = List.filter matchesOldPrefix (listed (events run)) ++ fetched (events run)
  /\ (forall key obj err,
         In (EvGet key obj err) (events run) -> key = oldProvisionerKey namespace)
  /\ (forall j vals,
         requirements (events run) !! j = Some vals ->
         vals
         = omap (fun ds => Labels (ds_ObjectMeta ds) !! appLabelKey)
             (List.filter matchesOldPrefix (listed (events run)))
           ++ replicate (S j) oldProvisionerName)
  /\ (forall sel items err,
         In (EvListPods sel items err) (events run) ->
         exists vals,
           In vals (requirements (events run))
           /\ sel = [retirementRequirement vals]).
Proof.
  intros Hlatch run Hreached.
  destruct (cleanup_trace namespace s Hlatch) as (Htrace & _).
  fold run in Htrace.
  destruct (CleanupTrace_reached _ _ _ Htrace Hreached)
    as (items & scan & prov & poll & Hr).
  pose proof (reached_poll _ _ _ _ _ _ _ Hr) as Hpoll.
  split; [| split; [| split]].
  - rewrite (reached_listed _ _ _ _ _ _ _ Hr).
    apply (reached_deleted _ _ _ _ _ _ _ Hr).
  - intros key obj err Hin.
    destruct (CleanupTrace_events _ _ _ Htrace) as (Hall & _).
    rewrite List.Forall_forall in Hall. specialize (Hall _ Hin).
    cbn in Hall. by apply bool_decide_eq_true in Hall.
  - intros j vals Hj.
    rewrite (reached_requirements _ _ _ _ _ _ _ Hr) in Hj.
    rewrite (reached_listed _ _ _ _ _ _ _ Hr), <- oldAppLabels_filter.
    exact (PollTrace_requirements _ _ _ _ _ Hpoll j vals Hj).
  - intros sel pods err Hin.
    assert (In sel (selectors (events run))) as Hsel
        by (apply In_selectors; eauto).
    rewrite (reached_selectors _ _ _ _ _ _ _ Hr) in Hsel.
    apply In_selectors in Hsel as (pods' & err' & Hin').
    destruct (PollTrace_selectors _ _ _ _ _ Hpoll _ _ _ Hin') as (j & Hj & ->).
    eexists. split; [| reflexivity].
    rewrite (reached_requirements _ _ _ _ _ _ _ Hr).
    apply In_omap_lookup. eauto.
Qed.

(** C10: the only writes of [cleanupOldDaemonsets] are deletes, and an
    object it deletes is either a listed daemonset whose [app] label starts
    with one of the two deprecated prefixes, or the one daemonset it fetched
    under the name [oldProvisionerName]; at most one object is fetched.  In
    particular a listed daemonset without [app] label is deleted only if it
    is that fetched object. *)
Theorem cleanup_deletes_only_legacy (namespace : string) (s : State W) :
  let run := cleanupOldDaemonsets namespace s in
  (forall e, In e (events run) -> isWrite e = true -> isDelete e = true)
  /\ (forall obj err,
         In (EvDelete obj err) (events run) ->
         (In obj (listed (events run))
          /\ exists appLabel,
              Labels (ds_ObjectMeta obj) !! appLabelKey = Some appLabel
              /\ (strings_HasPrefix appLabel oldLVDiskMakerPrefix
                  || strings_HasPrefix appLabel oldLVProvisionerPrefix) = true)
         \/ In (EvGet (oldProvisionerKey namespace) obj None) (events run))
  /\ (length (fetched (events run)) <= 1)%nat
  /\ (forall obj err,
         In (EvDelete obj err) (events run) ->
         Labels (ds_ObjectMeta obj) !! appLabelKey = None ->
         In (EvGet (oldProvisionerKey namespace) obj None) (events run)).
Proof.
  intros run.
  assert (CleanupTrace namespace (events run) (result run) \/ events run = [])
    as [Htrace | Hnil].
  { destruct (latch s) eqn:Hlatch.
    - right. unfold run. by rewrite cleanup_latched.
    - left. by apply cleanup_trace. }
  2: { rewrite Hnil. cbn. repeat split; try done. lia. }
  destruct (CleanupTrace_events _ _ _ Htrace) as (Hall & Hfetched & Hdel).
  assert (forall obj err,
             In (EvDelete obj err) (events run) ->
             (In obj (listed (events run))
              /\ exists appLabel,
                  Labels (ds_ObjectMeta obj) !! appLabelKey = Some appLabel
                  /\ hasOldPrefix appLabel = true)
             \/ In (EvGet (oldProvisionerKey namespace) obj None) (events run))
    as Hdel'.
  { intros obj err Hin.
    destruct (Hdel obj err Hin) as [[Hlisted Hm] | Hget]; [left | by right].
    split; [done |]. unfold matchesOldPrefix, oldAppLabel in Hm.
    destruct (Labels (ds_ObjectMeta obj) !! appLabelKey) as [l |]; [| done].
    exists l. split; [done |]. by destruct (hasOldPrefix l). }
  split; [| split; [exact Hdel' | split; [exact Hfetched |]]].
  - intros e Hin Hw. rewrite List.Forall_forall in Hall.
    specialize (Hall e Hin). by destruct e.
  - intros obj err Hin Hnone.
    destruct (Hdel' obj err Hin) as [[_ (l & Hl & _)] | Hget]; [| done].
    congruence.
Qed.

(** The schedule of [cleanupBackoff]: the interval before jitter and the
    remaining [Steps] after 0, 1, ... calls of [Backoff.Step].  The tenth
    call finds the next interval beyond the cap and sets [Steps] to 0. *)
Lemma cleanupBackoff_schedule :
  List.map
    (fun j =>
       let b := Nat.iter j Backoff_next cleanupBackoff in (Duration b, Steps b))
    (seq 0 11)
  = [ (1000000000, 20); (1700000000, 19); (2890000000, 18); (4913000000, 17);
      (8352100000, 16); (14198570000, 15); (24137569000, 14);
      (41033867300, 13); (69757574410, 12); (118587876497, 11);
      (120000000000, 0) ].
Proof. vm_compute. reflexivity. Qed.

(** X1: with this configuration the drain wait in fact gives up after ten
    attempts: the cap is reached before [Steps] runs out. *)
Lemma cleanup_polls_at_most_ten namespace s :
  (length (requirements (events (cleanupOldDaemonsets namespace s))) <= 10)%nat.
Proof.
  destruct (latch s) eqn:Hlatch.
  { rewrite cleanup_latched; [cbn; lia | done]. }
  destruct (cleanup_trace namespace s Hlatch) as (Htrace & _).
  destruct (CleanupTrace_cases _ _ _ Htrace)
    as [(-> & _) | (items & scan & prov & poll & Hr)]; [cbn; lia |].
  rewrite (reached_requirements _ _ _ _ _ _ _ Hr).
  apply (PollTrace_attempts_iter _ _ _ _ _ (reached_poll _ _ _ _ _ _ _ Hr)).
  vm_compute. discriminate.
Qed.

(** C3: the drain wait of [cleanupOldDaemonsets] runs under the backoff
    [cleanupBackoff]: initial interval one second, factor 1.7, jitter 1,
    cap 120 seconds, 20 steps.  In a run that starts with the latch unset
    the closure is tried at most 20 times; pause number [j] is the jittered
    interval of the backoff after [j] steps; when the drain wait is reached
    and no attempt ends it (no requirement refused, no listing failed or
    empty), the run returns [ErrWaitTimeout]; and whenever the run returns
    an error the latch stays unset and the next cleanup starts again by
    listing the daemonsets. *)
Theorem cleanup_backoff_budget (namespace : string) (s : State W) :
  latch s = false ->
  let run := cleanupOldDaemonsets namespace s in
  (Duration cleanupBackoff = 1 * time_Second
   /\ (Factor cleanupBackoff == 17 # 10)%Q
   /\ (0 < Jitter cleanupBackoff)%Q
   /\ Cap cleanupBackoff = 120 * time_Second
   /\ Steps cleanupBackoff = 20)
  /\ (length (requirements (events run)) <= 20)%nat
  /\ (forall j d,
         sleeps (events run) !! j = Some d ->
         exists x, d = jittered (Nat.iter j Backoff_next cleanupBackoff) x)
  /\ (requirements (events run) <> [] ->
      Forall (fun e => endsPolling e = false) (events run) ->
      result run = Some ErrWaitTimeout)
  /\ (result run <> None ->
      latch (final run) = false
      /\ forall namespace', exists items err rest,
          events (cleanupOldDaemonsets namespace' (final run))
          = EvListDaemonSets namespace' items err :: rest).
Proof.
  intros Hlatch run.
  destruct (cleanup_trace namespace s Hlatch) as (Htrace & _ & Hfinal & _).
  fold run in Htrace, Hfinal.
  split; [by repeat split |].
  split; [| split; [| split]].
  - destruct (CleanupTrace_cases _ _ _ Htrace)
      as [(-> & _) | (items & scan & prov & poll & Hr)]; [cbn; lia |].
    rewrite (reached_requirements _ _ _ _ _ _ _ Hr).
    apply (PollTrace_attempts _ _ _ _ _ (reached_poll _ _ _ _ _ _ _ Hr)).
  - intros j d Hj.
    destruct (CleanupTrace_cases _ _ _ Htrace)
      as [(_ & _ & Hnil & _) | (items & scan & prov & poll & Hr)].
    { by rewrite Hnil in Hj. }
    rewrite (reached_sleeps _ _ _ _ _ _ _ Hr) in Hj.
    apply (PollTrace_sleeps _ _ _ _ _ (reached_poll _ _ _ _ _ _ _ Hr) j d Hj).
  - intros Hreached Hall.
    destruct (CleanupTrace_reached _ _ _ Htrace Hreached)
      as (items & scan & prov & poll & Hr).
    apply (PollTrace_exhausted _ _ _ _ _ (reached_poll _ _ _ _ _ _ _ Hr)).
    rewrite (reached_events _ _ _ _ _ _ _ Hr) in Hall.
    apply Forall_cons in Hall as [_ Hall].
    apply Forall_app in Hall as [_ Hall].
    by apply Forall_app in Hall as [_ Hall].
  - intros Herr.
    assert (latch (final run) = false) as Hoff.
    { rewrite Hfinal. by destruct (result run). }
    split; [done |]. intros namespace'. by apply cleanup_rescans.
Qed.

(** C4 (amended): one call of the polling closure that gets as far as
    listing the pods reports [done = true] exactly when the listing did not
    fail (no error, or NotFound) and holds no item; a listing that failed
    otherwise makes it return that error.  In a run of
    [cleanupOldDaemonsets] that starts with the latch unset, a listing that
    failed is the last call and its error is the result; an empty listing
    that did not fail is the last call, the run returns [nil] and sets the
    latch; a non-empty one is followed by a pause and another attempt, or,
    when the backoff has used up its budget, by at most a pause and the
    result [ErrWaitTimeout]. *)
Theorem drain_poll_outcome (s : State W) :
  (forall sel items err,
      In (EvListPods sel items err) (events (podsGone s)) ->
      (fst (result (podsGone s)) = true
       <-> items = [] /\ fatalListError err = false)
      /\ snd (result (podsGone s)) = (if fatalListError err then err else None))
  /\ (latch s = false ->
      forall namespace,
        let run := cleanupOldDaemonsets namespace s in
        forall pre sel items err post,
          events run = pre ++ EvListPods sel items err :: post ->
          (fatalListError err = true ->
           post = [] /\ result run = err /\ latch (final run) = false)
          /\ (fatalListError err = false -> items = [] ->
              post = [] /\ result run = None /\ latch (final run) = true)
          /\ (fatalListError err = false -> items <> [] ->
              (exists d vals rerr post',
                  post = EvSleep d
                           :: EvNewRequirement appLabelKey selection_In vals rerr
                           :: post')
              \/ ((post = [] \/ exists d, post = [EvSleep d])
                  /\ result run = Some ErrWaitTimeout))).
Proof.
  split.
  - intros sel items err Hin. rewrite (podsGone_outcome s sel items err Hin).
    destruct (fatalListError err); cbn.
    + split; [| done]. split; [done | by intros [_ ?]].
    + split; [| done]. destruct items; cbn; split; try done. by intros [? _].
  - intros Hlatch namespace run pre sel items err post Hsplit.
    destruct (cleanup_trace namespace s Hlatch) as (Htrace & _ & Hfinal & _).
    fold run in Htrace, Hfinal.
    destruct (CleanupTrace_cases _ _ _ Htrace)
      as [(_ & Hnil & _) | (items' & scan & prov & poll & Hr)].
    { assert (In sel (selectors (events run))) as Hin.
      { apply In_selectors. exists items, err. rewrite Hsplit.
        apply in_or_app. right. by left. }
      by rewrite Hnil in Hin. }
    pose proof (reached_events _ _ _ _ _ _ _ Hr) as Hevs.
    rewrite Hsplit in Hevs. symmetry in Hevs.
    assert (Forall (fun e => isPollEvent e = false)
              (EvListDaemonSets namespace items' None :: scan ++ prov)) as Hprefix.
    { constructor; [done |]. apply Forall_app. split.
      - eapply Forall_impl;
          [exact (ScanTrace_only_deletes _ _ _ (reached_scan _ _ _ _ _ _ _ Hr)) |].
        by intros [].
      - exact (ProvisionerTrace_not_poll _ _ _ (reached_prov _ _ _ _ _ _ _ Hr)). }
    rewrite app_comm_cons, app_assoc in Hevs.
    assert (~ isPollEvent (EvListPods sel items err) = false) as Hpod by done.
    destruct (prefix_split _ _ _ _ _ _ Hprefix Hpod Hevs) as (pre' & _ & Hpoll).
    destruct (PollTrace_after_listing _ _ _ _ _ (reached_poll _ _ _ _ _ _ _ Hr)
                _ _ _ _ _ Hpoll) as (Hfail & Hdone & Hmore).
    split; [| split; [| exact Hmore]].
    + intros Hfatal. destruct (Hfail Hfatal) as (-> & Hres).
      split; [done |]. split; [done |]. rewrite Hfinal, Hres.
      unfold fatalListError in Hfatal. by destruct (notNil err).
    + intros Hfatal Hitems. destruct (Hdone Hfatal Hitems) as (-> & Hres).
      split; [done |]. split; [done |]. by rewrite Hfinal, Hres.
Qed.

(** C5: take any delete issued by a run of [cleanupOldDaemonsets] that
    starts with the latch unset.  If it answers [nil], NotFound or Gone, the
    run goes on: further calls follow it.  If it answers any other error,
    it is the last call of the run, the run returns that error and leaves
    the latch unset, and the next cleanup, in whatever namespace, starts
    again by listing the daemonsets. *)
Theorem cleanup_delete_errors (namespace : string) (s : State W) :
  latch s = false ->
  let run := cleanupOldDaemonsets namespace s in
  forall pre obj err post,
    events run = pre ++ EvDelete obj err :: post ->
    (err = None \/ errors_IsNotFound err || errors_IsGone err = true ->
     post <> [])
    /\ (notNil err = true ->
        errors_IsNotFound err || errors_IsGone err = false ->
        post = [] /\ result run = err /\ latch (final run) = false
        /\ forall namespace', exists items err' rest,
            events (cleanupOldDaemonsets namespace' (final run))
            = EvListDaemonSets namespace' items err' :: rest).
Proof.
  intros Hlatch run pre obj err post Hsplit.
  destruct (cleanup_trace namespace s Hlatch) as (Htrace & _ & Hfinal & _).
  fold run in Htrace, Hfinal.
  destruct (CleanupTrace_last _ _ _ Htrace) as (pre' & last & Hevs & Hpre & Hlast).
  rewrite Hevs in Hsplit.
  symmetry in Hsplit.
  destruct (snoc_split _ _ _ _ _ Hsplit) as [(-> & -> & <-) | (Hpost & Hin)].
  - destruct Hlast as [(obj' & Heq & Hfatal) | Hno]; [| done].
    injection Heq as <- Herr.
    destruct (fatalDeleteError_true _ Hfatal) as (Hnil & Hgone).
    split.
    + rewrite Herr. intros [Hr | Hr]; [by rewrite Hr in Hnil | congruence].
    + intros _ _. split; [done |]. split; [done |].
      assert (latch (final run) = false) as Hoff by (by rewrite Hfinal, Hnil).
      split; [done |]. intros namespace'. by apply cleanup_rescans.
  - unfold noFatalDelete in Hpre. rewrite List.Forall_forall in Hpre.
    specialize (Hpre _ Hin). cbn in Hpre.
    split; [done |]. intros Hnil Hgone.
    unfold fatalDeleteError in Hpre. by rewrite Hnil, Hgone in Hpre.
Qed.

(** C6: when [Reconcile] is entered with the latch unset and its call of
    [cleanupOldDaemonsets] returns an error, [Reconcile] returns the empty
    result with that very error, in the state and with the calls of the
    cleanup alone: none of the later steps (aggregation, config upsert,
    daemonset upsert) is made, and the latch stays unset. *)
Theorem Reconcile_stops_on_cleanup_error (request : Request) (s : State W)
    (e : error) :
  latch s = false ->
  let cleanup := cleanupOldDaemonsets (req_Namespace request) (entered request s) in
  result cleanup = Some e ->
  Reconcile request s = (emptyResult, Some e, final cleanup, events cleanup)
  /\ Forall (fun ev => isLaterStep ev = false) (events (Reconcile request s))
  /\ latch (final (Reconcile request s)) = false.
Proof.
  intros Hlatch cleanup Herr.
  assert (latch (entered request s) = false) as Hentered by done.
  destruct (cleanup_trace (req_Namespace request) _ Hentered) as (_ & _ & Hfinal & _).
  fold cleanup in Hfinal. rewrite Herr in Hfinal.
  pose proof (cleanup_no_later_step (req_Namespace request) (entered request s))
    as Hquiet.
  fold cleanup in Hquiet.
  rewrite Reconcile_run. fold cleanup.
  destruct cleanup as [[err s1] evs1]. cbn in Herr, Hfinal, Hquiet. subst err.
  done.
Qed.

(** C7: when the cleanup of a pass succeeds and the aggregation then
    succeeds with no fleet definition and no node selection, [Reconcile]
    returns the empty result and [nil], having made no call after the
    aggregation: neither upsert is attempted, nothing of the configuration
    object or of the daemonset is fetched, created or updated. *)
Theorem Reconcile_noop_on_empty (request : Request) (s : State W)
    (info : DaemonInfo) (w : W) :
  let cleanup := cleanupOldDaemonsets (req_Namespace request) (entered request s) in
  result cleanup = None ->
  aggregateDeamonInfo request (world (final cleanup)) = (info, None, w) ->
  lvSets_Items info = [] ->
  lvs_Items info = [] ->
  Reconcile request s
  = (emptyResult, None, setWorld w (final cleanup),
     events cleanup ++ [EvAggregateDeamonInfo request info None])
  /\ Forall (fun ev => isUpsert ev = false) (events (Reconcile request s)).
Proof.
  intros cleanup Hok Hagg Hsets Hlvs.
  pose proof (cleanup_no_later_step (req_Namespace request) (entered request s))
    as Hquiet.
  fold cleanup in Hquiet.
  rewrite Reconcile_run. fold cleanup.
  destruct cleanup as [[err s1] evs1]. cbn in Hok, Hagg, Hquiet. subst err.
  cbn [notNil]. rewrite Hagg. cbv zeta. cbn [notNil].
  rewrite Hsets, Hlvs. cbn.
  split; [done |]. apply Forall_app. split; [| by repeat constructor].
  eapply Forall_impl; [exact Hquiet |]. apply isLaterStep_isUpsert.
Qed.

Lemma getDiskMakerDSMutateFn_sets request tols owners sel hash ds :
  let ds' := getDiskMakerDSMutateFn request tols owners sel hash ds in
  Annotations (ds_ObjectMeta ds') !! dataHashAnnotationKey = Some hash
  /\ Name (ds_ObjectMeta ds') = DiskMakerName
  /\ Namespace (ds_ObjectMeta ds') = req_Namespace request.
Proof. cbn. by rewrite lookup_insert_eq. Qed.

(** C8: in a pass of [Reconcile] that returns [nil] and has upserted the
    configuration, the calls up to the config upsert contain no daemonset
    upsert; the config upsert is followed at once by the fetch of the
    daemonset [DiskMakerName], and the pass ends with a daemonset that
    carries, under [dataHashAnnotationKey], the hash of the data of the
    configuration the config upsert returned: either the daemonset it
    created or updated after the fetch, or, when nothing had to be written,
    the one it fetched. *)
Theorem daemonset_annotation_follows_configmap (request : Request) (s : State W)
    (request' : Request) (configMap : ConfigMap) (opResult : OperationResult)
    (err : option error) :
  let run := Reconcile request s in
  let key := {| nn_Name := DiskMakerName; nn_Namespace := req_Namespace request |} in
  snd (result run) = None ->
  In (EvReconcileProvisionerConfigMap request' configMap opResult err) (events run) ->
  exists pre found gerr post ds,
    events run
    = pre ++ EvReconcileProvisionerConfigMap request' configMap opResult err
          :: EvGet key found gerr :: post
    /\ Forall (fun e => isUpsert e = false) pre
    /\ Annotations (ds_ObjectMeta ds) !! dataHashAnnotationKey
       = Some (dataHash (Data configMap))
    /\ Name (ds_ObjectMeta ds) = DiskMakerName
    /\ ((post = [] /\ gerr = None /\ ds = found)
        \/ post = [EvCreate ds None]
        \/ post = [EvUpdate ds None]).
Proof.
  intros run key. unfold run. rewrite Reconcile_run.
  pose proof (cleanup_no_later_step (req_Namespace request) (entered request s))
    as Hquiet.
  destruct (cleanupOldDaemonsets _ (entered request s)) as [[cerr s1] evs1].
  cbn [events] in Hquiet.
  assert (forall e, In e evs1 -> isLaterStep e = false) as Hevs1
      by (by apply List.Forall_forall).
  destruct (notNil cerr).
  { intros _ Hin. by apply Hevs1 in Hin. }
  destruct (aggregateDeamonInfo request (world s1)) as [[info aerr] w].
  cbv zeta.
  assert (forall e,
             In e (evs1 ++ [EvAggregateDeamonInfo request info aerr]) ->
             isUpsert e = false) as Hpre.
  { intros e Hin. apply in_app_or in Hin as [Hin | [<- | []]]; [| done].
    apply isLaterStep_isUpsert. by apply Hevs1. }
  destruct (notNil aerr).
  { intros _ Hin. by apply Hpre in Hin. }
  destruct (_ && _).
  { intros _ Hin. by apply Hpre in Hin. }
  destruct (reconcileProvisionerConfigMap _ _ _ _ w) as [[[cm op] cmerr] w'].
  destruct (notNil cmerr) eqn:Hcm.
  { cbn. intros ->. done. }
  match goal with
  | |- context [CreateOrUpdateDaemonset ?f ?s0] =>
      set (mutateFn := f);
      destruct (CreateOrUpdateDaemonset_trace mutateFn s0) as (Hupsert & _);
      destruct (CreateOrUpdateDaemonset mutateFn s0) as [[[[ds op'] uerr] s2] evs2]
  end.
  cbn in Hupsert. cbn [result events fst snd].
  fold key in Hupsert.
  intros -> Hin.
  pose proof (fun d => getDiskMakerDSMutateFn_sets request (tolerations info)
                         (ownerRefs info) (nodeSelector info)
                         (dataHash (Data cm)) d) as Hsets.
  fold mutateFn in Hsets. cbv zeta in Hsets.
  assert (EvReconcileProvisionerConfigMap request' configMap opResult err
          = EvReconcileProvisionerConfigMap request cm op cmerr) as Heq.
  { apply in_app_or in Hin as [Hin | [Heq | [Heq | Hin]]];
      [by apply Hevs1 in Hin | done | done |].
    inversion Hupsert; subst; cbn in Hin; by repeat destruct Hin as [Hin | Hin]. }
  injection Heq as -> -> -> ->.
  exists (evs1 ++ [EvAggregateDeamonInfo request info aerr]).
  assert (forall found gerr post,
             evs2 = EvGet key found gerr :: post ->
             evs1 ++ [EvAggregateDeamonInfo request info aerr;
                      EvReconcileProvisionerConfigMap request cm op cmerr] ++ evs2
             = (evs1 ++ [EvAggregateDeamonInfo request info aerr])
                 ++ EvReconcileProvisionerConfigMap request cm op cmerr
                 :: EvGet key found gerr :: post) as Hevents.
  { intros found gerr post ->. by rewrite <- app_assoc. }
  assert (Forall (fun e => isUpsert e = false)
            (evs1 ++ [EvAggregateDeamonInfo request info aerr])) as Hall
      by (by apply List.Forall_forall).
  remember None as uerr eqn:Huerr.
  destruct Hupsert as [found gerr Hfatal | found gerr Hfatal snapshot Hsame
                      | found gerr werr Habsent | found gerr werr Hfatal Hpresent].
  - subst. done.
  - destruct (Hsets snapshot) as (Hann & Hname & _). rewrite Hsame in Hann, Hname.
    assert (errors_IsNotFound gerr = false) as Hpresent.
    { destruct (errors_IsNotFound gerr) eqn:Habsent; [| done].
      subst snapshot. cbn in Hname. done. }
    assert (gerr = None) as ->.
    { unfold fatalListError in Hfatal. rewrite Hpresent in Hfatal.
      by destruct gerr. }
    subst snapshot. rewrite Hpresent in Hann, Hname.
    exists found, None, [], found.
    split; [by apply Hevents |]. repeat split; try done. by left.
  - subst werr. destruct (Hsets emptyDaemonSet) as (Hann & Hname & _).
    exists found, gerr, [EvCreate (mutateFn emptyDaemonSet) None],
      (mutateFn emptyDaemonSet).
    split; [by apply Hevents |]. repeat split; try done. right. by left.
  - subst werr. destruct (Hsets found) as (Hann & Hname & _).
    exists found, gerr, [EvUpdate (mutateFn found) None], (mutateFn found).
    split; [by apply Hevents |]. repeat split; try done. right. by right.
Qed.

Lemma count_occ_replicate_same (x : string) n :
  count_occ string_dec (replicate n x) x = n.
Proof.
  induction n as [| n IH]; [done |]. cbn.
  destruct (string_dec x x); [by f_equal | done].
Qed.

(** C9: in a run of [cleanupOldDaemonsets] that starts with the latch
    unset, attempt number [j] (from 0) of the drain poll hands
    [labels.NewRequirement] the labels collected by the scan followed by
    [j + 1] copies of [oldProvisionerName]: the name is appended again on
    every attempt, so every requirement contains it, also when the scan
    collected nothing.  After [k] attempts [appNameList] holds the collected
    labels and exactly [k] copies of the name.  Every pod listing uses the
    selector built from the names of its attempt, and, the operator being
    [in], all these selectors match the same label sets. *)
Theorem poll_appends_old_name_each_attempt (namespace : string) (s : State W) :
  latch s = false ->
  let run := cleanupOldDaemonsets namespace s in
  let base := oldAppLabels (listed (events run)) in
  (forall j vals,
      requirements (events run) !! j = Some vals ->
      vals = base ++ replicate (S j) oldProvisionerName)
  /\ (forall vals,
         In vals (requirements (events run)) -> In oldProvisionerName vals)
  /\ (requirements (events run) <> [] ->
      appNameList (final run)
      = base ++ replicate (length (requirements (events run))) oldProvisionerName
      /\ count_occ string_dec (appNameList (final run)) oldProvisionerName
         = length (requirements (events run)))
  /\ (forall sel items err,
         In (EvListPods sel items err) (events run) ->
         exists vals,
           In vals (requirements (events run))
           /\ sel = Selector_Add labels_NewSelector (retirementRequirement vals))
  /\ (forall sel sel' ls,
         In sel (selectors (events run)) ->
         In sel' (selectors (events run)) ->
         Selector_Matches sel ls = Selector_Matches sel' ls).
Proof.
  intros Hlatch run base.
  destruct (cleanup_trace namespace s Hlatch) as (Htrace & _ & _ & Hnames).
  fold run in Htrace, Hnames. fold base in Hnames.
  assert (forall j vals,
             requirements (events run) !! j = Some vals ->
             vals = base ++ replicate (S j) oldProvisionerName) as Hvals.
  { intros j vals Hj.
    destruct (CleanupTrace_reached _ _ _ Htrace) as (items & scan & prov & poll & Hr).
    { intros Hnil. by rewrite Hnil in Hj. }
    rewrite (reached_requirements _ _ _ _ _ _ _ Hr) in Hj.
    unfold base. rewrite (reached_listed _ _ _ _ _ _ _ Hr).
    exact (PollTrace_requirements _ _ _ _ _ (reached_poll _ _ _ _ _ _ _ Hr) j vals Hj). }
  assert (forall sel,
             In sel (selectors (events run)) ->
             exists j,
               requirements (events run) !! j = Some (retirementNames base j)
               /\ sel = [retirementRequirement (retirementNames base j)]) as Hsel.
  { intros sel Hin.
    destruct (CleanupTrace_cases _ _ _ Htrace)
      as [(_ & Hnil & _) | (items & scan & prov & poll & Hr)].
    { by rewrite Hnil in Hin. }
    rewrite (reached_selectors _ _ _ _ _ _ _ Hr) in Hin.
    apply In_selectors in Hin as (pods & err & Hin).
    destruct (PollTrace_selectors _ _ _ _ _ (reached_poll _ _ _ _ _ _ _ Hr) _ _ _ Hin)
      as (j & Hj & ->).
    exists j. unfold base.
    by rewrite (reached_requirements _ _ _ _ _ _ _ Hr),
      (reached_listed _ _ _ _ _ _ _ Hr). }
  split; [exact Hvals |]. split; [| split; [| split]].
  - intros vals Hin. apply In_omap_lookup in Hin as (j & Hj).
    rewrite (Hvals j vals Hj). apply in_or_app. right. by left.
  - intros Hne. specialize (Hnames Hne). split; [exact Hnames |].
    rewrite Hnames, count_occ_app, count_occ_replicate_same.
    rewrite (proj1 (count_occ_not_In string_dec _ _)); [done |].
    apply oldProvisionerName_not_collected.
  - intros sel items err Hin.
    destruct (Hsel sel) as (j & Hj & ->).
    { apply In_selectors. eauto. }
    exists (retirementNames base j). split; [| done].
    apply In_omap_lookup. eauto.
  - intros sel sel' ls Hin Hin'.
    destruct (Hsel sel Hin) as (j & _ & ->).
    destruct (Hsel sel' Hin') as (j' & _ & ->).
    apply retirement_selector_same.
Qed.

End Adequacy.

(** * Runs of the reconciler on the in-memory cluster *)

Example legacy_cleanup_succeeds :
  let run := cleanupOldDaemonsets "ns" (Fake.start Fake.legacy) in
  result run = None
  /\ latch (final run) = true
  /\ List.map (fun ds => Name (ds_ObjectMeta ds)) (deleted (events run))
     = [ "local-volume-diskmaker-fast"; "local-volume-provisioner-fast";
         oldProvisionerName ]
  /\ List.map (fun ds => Name (ds_ObjectMeta ds))
       (Fake.daemonsets (world (final run)))
     = [ "bystander"; "diskmaker-manager" ]
  /\ requirements (events run)
     = [ [ "local-volume-diskmaker-fast"; "local-volume-provisioner-fast";
           oldProvisionerName ];
         [ "local-volume-diskmaker-fast"; "local-volume-provisioner-fast";
           oldProvisionerName; oldProvisionerName ] ]
  /\ sleeps (events run) = [1500000000].
Proof. vm_compute. repeat split. Qed.

Example stuck_cleanup_times_out :
  let run := cleanupOldDaemonsets "ns" (Fake.start (Fake.stuck Fake.legacy)) in
  result run = Some ErrWaitTimeout
  /\ latch (final run) = false
  /\ length (requirements (events run)) = 10%nat
  /\ length (sleeps (events run)) = 10%nat.
Proof. vm_compute. repeat split. Qed.

Example second_pass_changes_nothing :
  let s1 := final (Reconcile Fake.request (Fake.start Fake.current)) in
  let run := Reconcile Fake.request s1 in
  latch s1 = true
  /\ result run = (emptyResult, None)
  /\ world (final run) = world s1
  /\ List.filter (fun e => isDelete e) (events run) = []
  /\ length (events run) = 3%nat.
Proof. vm_compute. repeat split. Qed.

(** * The theorems at work on the in-memory cluster *)

Lemma cleanup_latch_absorbing_witness :
  (latch (Fake.cleaned Fake.legacy) = true
   /\ forall ops,
       latch (runOps ops (Fake.cleaned Fake.legacy)) = true
       /\ forall namespace,
           cleanupOldDaemonsets namespace (runOps ops (Fake.cleaned Fake.legacy))
           = (None, runOps ops (Fake.cleaned Fake.legacy), []))
  /\ (latch (Fake.start Fake.legacy) = false
      /\ forall namespace,
          let run := cleanupOldDaemonsets namespace (Fake.start Fake.legacy) in
          (latch (final run) = true <-> result run = None)
          /\ (latch (final run) = true ->
              exists pre sel err,
                events run = pre ++ [EvListPods sel [] err]
                /\ fatalListError err = false)).
Proof.
  split; (split; [reflexivity |]).
  - apply (proj1 (cleanup_latch_absorbing (Fake.cleaned Fake.legacy))). reflexivity.
  - apply (proj2 (cleanup_latch_absorbing (Fake.start Fake.legacy))). reflexivity.
Defined.

Lemma cleanup_retirement_set_witness :
  let s := Fake.start Fake.legacy in
  let run := cleanupOldDaemonsets "ns" s in
  latch s = false
  /\ requirements (events run) <> []
  /\ deleted (events run)
     = List.filter matchesOldPrefix (listed (events run)) ++ fetched (events run)
  /\ (forall key obj err,
         In (EvGet key obj err) (events run) -> key = oldProvisionerKey "ns")
  /\ (forall j vals,
         requirements (events run) !! j = Some vals ->
         vals
         = omap (fun ds => Labels (ds_ObjectMeta ds) !! appLabelKey)
             (List.filter matchesOldPrefix (listed (events run)))
           ++ replicate (S j) oldProvisionerName)
  /\ (forall sel items err,
         In (EvListPods sel items err) (events run) ->
         exists vals,
           In vals (requirements (events run))
           /\ sel = [retirementRequirement vals]).
Proof.
  assert (requirements (events (cleanupOldDaemonsets "ns" (Fake.start Fake.legacy)))
          <> []) as Hreached by (vm_compute; discriminate).
  split; [reflexivity |]. split; [exact Hreached |].
  exact (cleanup_retirement_set "ns" (Fake.start Fake.legacy) eq_refl Hreached).
Defined.

(** C2, as stated, fails: the daemonset named [oldProvisionerName] is
    deleted, its [app] label is "legacy-provisioner", and that label is in
    none of the name lists the drain poll selects on. *)
Lemma retirement_set_misses_exact_named_label :
  let run := cleanupOldDaemonsets "ns" (Fake.start Fake.mislabelled) in
  result run = None
  /\ ~ (forall obj appLabel vals,
           In obj (deleted (events run)) ->
           Labels (ds_ObjectMeta obj) !! appLabelKey = Some appLabel ->
           In vals (requirements (events run)) ->
           In appLabel vals).
Proof.
  split; [vm_compute; reflexivity |].
  intros Hclaim.
  specialize (Hclaim
                (Fake.daemonset "ns" oldProvisionerName [("app", "legacy-provisioner")])
                "legacy-provisioner" [oldProvisionerName]).
  assert (In "legacy-provisioner" [oldProvisionerName]) as Hin.
  { apply Hclaim; vm_compute; auto. }
  vm_compute in Hin. destruct Hin as [Heq | []]. discriminate Heq.
Qed.

Lemma cleanup_backoff_budget_witness :
  let s := Fake.start (Fake.stuck Fake.legacy) in
  let run := cleanupOldDaemonsets "ns" s in
  latch s = false
  /\ (Duration cleanupBackoff = 1 * time_Second
      /\ (Factor cleanupBackoff == 17 # 10)%Q
      /\ (0 < Jitter cleanupBackoff)%Q
      /\ Cap cleanupBackoff = 120 * time_Second
      /\ Steps cleanupBackoff = 20)
  /\ (length (requirements (events run)) <= 20)%nat
  /\ (forall j d,
         sleeps (events run) !! j = Some d ->
         exists x, d = jittered (Nat.iter j Backoff_next cleanupBackoff) x)
  /\ (requirements (events run) <> [] ->
      Forall (fun e => endsPolling e = false) (events run) ->
      result run = Some ErrWaitTimeout)
  /\ (result run <> None ->
      latch (final run) = false
      /\ forall namespace', exists items err rest,
          events (cleanupOldDaemonsets namespace' (final run))
          = EvListDaemonSets namespace' items err :: rest).
Proof.
  split; [reflexivity |].
  exact (cleanup_backoff_budget "ns" (Fake.start (Fake.stuck Fake.legacy)) eq_refl).
Defined.

Lemma drain_poll_outcome_witness :
  let s := Fake.start Fake.legacy in
  latch s = false
  /\ forall namespace,
      let run := cleanupOldDaemonsets namespace s in
      forall pre sel items err post,
        events run = pre ++ EvListPods sel items err :: post ->
        (fatalListError err = true ->
         post = [] /\ result run = err /\ latch (final run) = false)
        /\ (fatalListError err = false -> items = [] ->
            post = [] /\ result run = None /\ latch (final run) = true)
        /\ (fatalListError err = false -> items <> [] ->
            (exists d vals rerr post',
                post = EvSleep d
                         :: EvNewRequirement appLabelKey selection_In vals rerr
                         :: post')
            \/ ((post = [] \/ exists d, post = [EvSleep d])
                /\ result run = Some ErrWaitTimeout)).
Proof.
  split; [reflexivity |].
  exact (proj2 (drain_poll_outcome (Fake.start Fake.legacy)) eq_refl).
Defined.

(** C4, as stated, fails twice.  When the listing is refused, the pod list
    holds no item and yet the attempt does not report completion; and the
    tenth listing of a drain that never ends holds two pods and is followed
    by a pause, but by no other attempt. *)
Lemma drain_poll_done_is_not_just_zero_items :
  let refused :=
    Fake.start (Fake.failingListPods (StatusError StatusReasonForbidden) Fake.legacy) in
  let run := cleanupOldDaemonsets "ns" (Fake.start (Fake.stuck Fake.legacy)) in
  ~ (forall sel items err,
        In (EvListPods sel items err) (events (podsGone refused)) ->
        (fst (result (podsGone refused)) = true <-> items = []))
  /\ exists pre sel p1 p2 d,
      events run = pre ++ [EvListPods sel [p1; p2] None; EvSleep d]
      /\ result run = Some ErrWaitTimeout.
Proof.
  split.
  - intros Hclaim.
    specialize (Hclaim
                  [retirementRequirement [oldProvisionerName]] []
                  (Some (StatusError StatusReasonForbidden))).
    assert (fst (result (podsGone
                           (Fake.start
                              (Fake.failingListPods
                                 (StatusError StatusReasonForbidden) Fake.legacy))))
            = true) as Hdone.
    { apply Hclaim; [vm_compute; auto | reflexivity]. }
    vm_compute in Hdone. discriminate Hdone.
  - vm_compute.
    match goal with
    | |- exists pre sel p1 p2 d, ?evs = _ /\ _ =>
        exists (removelast (removelast evs))
    end.
    do 4 eexists. split; reflexivity.
Qed.

Lemma cleanup_delete_errors_witness :
  let s := Fake.start (Fake.failingDelete (StatusError StatusReasonForbidden) Fake.legacy) in
  let run := cleanupOldDaemonsets "ns" s in
  latch s = false
  /\ forall pre obj err post,
      events run = pre ++ EvDelete obj err :: post ->
      (err = None \/ errors_IsNotFound err || errors_IsGone err = true ->
       post <> [])
      /\ (notNil err = true ->
          errors_IsNotFound err || errors_IsGone err = false ->
          post = [] /\ result run = err /\ latch (final run) = false
          /\ forall namespace', exists items err' rest,
              events (cleanupOldDaemonsets namespace' (final run))
              = EvListDaemonSets namespace' items err' :: rest).
Proof.
  split; [reflexivity |].
  exact (cleanup_delete_errors "ns"
           (Fake.start (Fake.failingDelete (StatusError StatusReasonForbidden) Fake.legacy))
           eq_refl).
Defined.

Lemma Reconcile_stops_on_cleanup_error_witness :
  let s := Fake.start (Fake.stuck (Fake.withLocalVolumeSets ["fast-disks"] Fake.legacy)) in
  let cleanup := cleanupOldDaemonsets "ns" (entered Fake.request s) in
  latch s = false
  /\ result cleanup = Some ErrWaitTimeout
  /\ Reconcile Fake.request s
     = (emptyResult, Some ErrWaitTimeout, final cleanup, events cleanup)
  /\ Forall (fun ev => isLaterStep ev = false) (events (Reconcile Fake.request s))
  /\ latch (final (Reconcile Fake.request s)) = false.
Proof.
  assert (result (cleanupOldDaemonsets "ns"
                    (entered Fake.request
                       (Fake.start
                          (Fake.stuck
                             (Fake.withLocalVolumeSets ["fast-disks"] Fake.legacy)))))
          = Some ErrWaitTimeout) as Herr by (vm_compute; reflexivity).
  split; [reflexivity |]. split; [exact Herr |].
  exact (Reconcile_stops_on_cleanup_error Fake.request
           (Fake.start (Fake.stuck (Fake.withLocalVolumeSets ["fast-disks"] Fake.legacy)))
           ErrWaitTimeout eq_refl Herr).
Defined.

Lemma Reconcile_noop_on_empty_witness :
  let s := Fake.start Fake.legacy in
  let cleanup := cleanupOldDaemonsets "ns" (entered Fake.request s) in
  let info :=
    {| lvSets_Items := []; lvs_Items := []; tolerations := []; ownerRefs := [];
       nodeSelector := None |} in
  let w := world (final cleanup) in
  result cleanup = None
  /\ aggregateDeamonInfo Fake.request (world (final cleanup)) = (info, None, w)
  /\ lvSets_Items info = []
  /\ lvs_Items info = []
  /\ Reconcile Fake.request s
     = (emptyResult, None, setWorld w (final cleanup),
        events cleanup ++ [EvAggregateDeamonInfo Fake.request info None])
  /\ Forall (fun ev => isUpsert ev = false) (events (Reconcile Fake.request s)).
Proof.
  assert (result (cleanupOldDaemonsets "ns" (entered Fake.request (Fake.start Fake.legacy)))
          = None) as Hok by (vm_compute; reflexivity).
  split; [exact Hok |]. split; [reflexivity |]. do 2 (split; [reflexivity |]).
  exact (Reconcile_noop_on_empty Fake.request (Fake.start Fake.legacy) _ _
           Hok eq_refl eq_refl eq_refl).
Defined.

Lemma daemonset_annotation_follows_configmap_witness :
  let s := Fake.start Fake.current in
  let run := Reconcile Fake.request s in
  let configMap :=
    Fake.desiredConfigMap Fake.request [{| lvset_Name := "fast-disks" |}] []
      [{| ownerRef_Name := "fast-disks" |}] in
  let configured :=
    EvReconcileProvisionerConfigMap Fake.request configMap OperationResultCreated None in
  let key := {| nn_Name := DiskMakerName; nn_Namespace := "ns" |} in
  snd (result run) = None
  /\ In configured (events run)
  /\ exists pre found gerr post ds,
      events run = pre ++ configured :: EvGet key found gerr :: post
      /\ Forall (fun e => isUpsert e = false) pre
      /\ Annotations (ds_ObjectMeta ds) !! dataHashAnnotationKey
         = Some (dataHash (Data configMap))
      /\ Name (ds_ObjectMeta ds) = DiskMakerName
      /\ ((post = [] /\ gerr = None /\ ds = found)
          \/ post = [EvCreate ds None]
          \/ post = [EvUpdate ds None]).
Proof.
  assert (snd (result (Reconcile Fake.request (Fake.start Fake.current))) = None)
    as Hok by (vm_compute; reflexivity).
  assert (In (EvReconcileProvisionerConfigMap Fake.request
                (Fake.desiredConfigMap Fake.request [{| lvset_Name := "fast-disks" |}] []
                   [{| ownerRef_Name := "fast-disks" |}])
                OperationResultCreated None)
            (events (Reconcile Fake.request (Fake.start Fake.current)))) as Hin.
  { vm_compute. repeat (first [left; reflexivity | right]). }
  split; [exact Hok |]. split; [exact Hin |].
  exact (daemonset_annotation_follows_configmap Fake.request (Fake.start Fake.current)
           _ _ _ _ Hok Hin).
Defined.

Lemma poll_appends_old_name_each_attempt_witness :
  let s := Fake.start Fake.legacy in
  let run := cleanupOldDaemonsets "ns" s in
  let base := oldAppLabels (listed (events run)) in
  latch s = false
  /\ (forall j vals,
         requirements (events run) !! j = Some vals ->
         vals = base ++ replicate (S j) oldProvisionerName)
  /\ (forall vals,
         In vals (requirements (events run)) -> In oldProvisionerName vals)
  /\ (requirements (events run) <> [] ->
      appNameList (final run)
      = base ++ replicate (length (requirements (events run))) oldProvisionerName
      /\ count_occ string_dec (appNameList (final run)) oldProvisionerName
         = length (requirements (events run)))
  /\ (forall sel items err,
         In (EvListPods sel items err) (events run) ->
         exists vals,
           In vals (requirements (events run))
           /\ sel = Selector_Add labels_NewSelector (retirementRequirement vals))
  /\ (forall sel sel' ls,
         In sel (selectors (events run)) ->
         In sel' (selectors (events run)) ->
         Selector_Matches sel ls = Selector_Matches sel' ls).
Proof.
  split; [reflexivity |].
  exact (poll_appends_old_name_each_attempt "ns" (Fake.start Fake.legacy) eq_refl).
Defined.
